(** * Argubots: the agent response protocols of [argubots.py]

    A shallow embedding of the four agent classes of [argubots.py]
    ([KialoAgent], [ContextualKialoAgent], [RAGAgent], [AwsomAgent]) and
    the properties of their [response] methods.

    The methods talk to three collaborators that are not part of the
    module: the Kialo corpus ([closest_claims], [random_chain], [cons]),
    Python's [random.choice], and the chat-completion client.  Each method
    is written as a program over the calls it performs; the programs are
    then run against explicit models of the collaborators. *)

From Stdlib Require Import Ascii QArith.
From stdpp Require Import base strings list gmap.

Local Close Scope Q_scope.
Local Open Scope nat_scope.

(** ** Python strings *)

(** The newline character of the f-strings and of ["\n".join]. *)
Definition nl : string := String "010"%char "".

(** [sep.join(l)] *)
Fixpoint join (sep : string) (l : list string) : string :=
  match l with
  | [] => ""
  | [x] => x
  | x :: l' => x +:+ sep +:+ join sep l'
  end.

(** A Python [str] is a sequence of Unicode code points.  It is held here
    as its UTF-8 encoding, the encoding of the string literals of this
    file; concatenation and [join] work on the encoding as they do on the
    code points.  [characters] reads the encoding back: each character
    with its code point and its bytes.  A byte that is not part of a
    well-formed sequence stands for the code point of its own value. *)
Definition continuation (c : ascii) : option N :=
  let b := N_of_ascii c in
  if (128 <=? b)%N && (b <? 192)%N then Some (b - 128)%N else None.

Definition well_formed2 (cp : N) : bool := (0x80 <=? cp)%N.

Definition well_formed3 (cp : N) : bool :=
  (0x800 <=? cp)%N && negb ((0xD800 <=? cp)%N && (cp <=? 0xDFFF)%N).

Definition well_formed4 (cp : N) : bool :=
  (0x10000 <=? cp)%N && (cp <=? 0x10FFFF)%N.

Fixpoint characters (s : string) : list (N * string) :=
  match s with
  | EmptyString => []
  | String c0 s0 =>
      let b0 := N_of_ascii c0 in
      let single := (b0, String c0 "") :: characters s0 in
      if (b0 <? 192)%N then single
      else if (b0 <? 224)%N then
        match s0 with
        | String c1 s1 =>
            match continuation c1 with
            | Some x1 =>
                let cp := ((b0 - 192) * 64 + x1)%N in
                if well_formed2 cp
                then (cp, String c0 (String c1 "")) :: characters s1
                else single
            | None => single
            end
        | _ => single
        end
      else if (b0 <? 240)%N then
        match s0 with
        | String c1 (String c2 s2) =>
            match continuation c1, continuation c2 with
            | Some x1, Some x2 =>
                let cp := (((b0 - 224) * 64 + x1) * 64 + x2)%N in
                if well_formed3 cp
                then (cp, String c0 (String c1 (String c2 ""))) :: characters s2
                else single
            | _, _ => single
            end
        | _ => single
        end
      else if (b0 <? 248)%N then
        match s0 with
        | String c1 (String c2 (String c3 s3)) =>
            match continuation c1, continuation c2, continuation c3 with
            | Some x1, Some x2, Some x3 =>
                let cp := ((((b0 - 240) * 64 + x1) * 64 + x2) * 64 + x3)%N in
                if well_formed4 cp
                then (cp, String c0 (String c1 (String c2 (String c3 ""))))
                       :: characters s3
                else single
            | _, _, _ => single
            end
        | _ => single
        end
      else single
  end.

(** The bytes of a sequence of characters. *)
Definition text (cs : list (N * string)) : string :=
  foldr (fun c s => c.2 +:+ s) "" cs.

(** Whitespace in the sense of [str.strip()] and [str.isspace()]: TAB,
    LF, VT, FF, CR; the separators FS, GS, RS, US; the space; NEL
    (U+0085); the no-break space (U+00A0); the Ogham space mark (U+1680);
    U+2000 to U+200A; the line and paragraph separators (U+2028, U+2029);
    the narrow no-break space (U+202F); the medium mathematical space
    (U+205F); the ideographic space (U+3000). *)
Definition is_whitespace (cp : N) : bool :=
  ((0x09 <=? cp) && (cp <=? 0x0D)
   || (0x1C <=? cp) && (cp <=? 0x20)
   || (cp =? 0x85) || (cp =? 0xA0) || (cp =? 0x1680)
   || (0x2000 <=? cp) && (cp <=? 0x200A)
   || (cp =? 0x2028) || (cp =? 0x2029) || (cp =? 0x202F)
   || (cp =? 0x205F) || (cp =? 0x3000))%N.

Fixpoint lstrip_characters (cs : list (N * string)) : list (N * string) :=
  match cs with
  | c :: cs' => if is_whitespace c.1 then lstrip_characters cs' else cs
  | [] => []
  end.

Definition rstrip_characters (cs : list (N * string)) : list (N * string) :=
  rev (lstrip_characters (rev cs)).

(** [s.lstrip()] *)
Definition lstrip (s : string) : string := text (lstrip_characters (characters s)).

(** [s.rstrip()] *)
Definition rstrip (s : string) : string := text (rstrip_characters (characters s)).

(** [s.strip()] *)
Definition strip (s : string) : string :=
  text (rstrip_characters (lstrip_characters (characters s))).

(** [l[-n:]] for [n > 0] *)
Definition last_n {A} (n : nat) (l : list A) : list A := drop (length l - n) l.

(** ** Data *)

(** A turn of a dialogue: a dict with the keys ['speaker'] and ['content']. *)
Module Turn.
Record t := mk { speaker : string; content : string }.
End Turn.

Abbreviation Dialogue := (list Turn.t).

(** A message of a prompt: a dict with the keys ["role"] and ["content"]. *)
Module Message.
Record t := mk { role : string; content : string }.
End Message.

(** What [client.chat.completions.create] returns, as far as the module
    reads it: [.choices[0].message.content]. *)
Module ChatCompletionMessage.
Record t := mk { content : option string }.
End ChatCompletionMessage.

Module Choice.
Record t := mk { message : ChatCompletionMessage.t }.
End Choice.

Module ChatCompletion.
Record t := mk { choices : list Choice.t }.
End ChatCompletion.

(** The exceptions a [response] call can end with. *)
Inductive Exn :=
| AssertionError (msg : string)
| IndexError
| KeyError (key : string)
| AttributeError (attr : string)
| APIError (detail : string).

(** The Kialo corpus object.  Its class is imported from [kialo]; the
    agents use the dict [cons] and the methods [closest_claims] and
    [random_chain], which are taken as they are given.  [random_chain]
    is driven by one raw draw of the random source. *)
Record Kialo := {
  cons : gmap string (list string);
  closest_claims_impl : string -> nat -> string -> list string;
  random_chain_impl : nat -> list string
}.

(** The chat-completion client.  The answer to a [create] call may depend
    on how many calls were made before it; a call either raises or
    returns a completion. *)
Record Client := {
  create_impl : nat -> list Message.t -> string -> Exn + ChatCompletion.t
}.

(** The attributes of an agent object.  An attribute that was never
    assigned is [None]; reading it raises [AttributeError]. *)
Record Obj := {
  name : option string;
  kialo : option Kialo;
  model : option string;
  client : option Client
}.

Definition new_object : Obj :=
  {| name := None; kialo := None; model := None; client := None |}.

Definition set_name (v : string) (o : Obj) : Obj :=
  {| name := Some v; kialo := kialo o; model := model o; client := client o |}.
Definition set_kialo (v : Kialo) (o : Obj) : Obj :=
  {| name := name o; kialo := Some v; model := model o; client := client o |}.
Definition set_model (v : string) (o : Obj) : Obj :=
  {| name := name o; kialo := kialo o; model := Some v; client := client o |}.
Definition set_client (v : Client) (o : Obj) : Obj :=
  {| name := name o; kialo := kialo o; model := model o; client := Some v |}.

(** ** Programs *)

(** The calls a method makes: reads and writes of [self]'s attributes,
    reads of the dialogue, the corpus queries, [random.choice],
    [log.info] and the generation call. *)
Inductive Eff : Type -> Type :=
| getattr {A : Type} (proj : Obj -> option A) (attr : string) : Eff A
| setattr (upd : Obj -> Obj) : Eff unit
| get_dialogue : Eff Dialogue
| closest_claims (k : Kialo) (query : string) (n : nat) (kind : string) : Eff (list string)
| random_chain (k : Kialo) : Eff (list string)
| random_choice (seq : list string) : Eff string
| log_info (msg : string) : Eff unit
| create (c : Client) (messages : list Message.t) (model : string) : Eff ChatCompletion.t.

(** A program returns, raises, or makes a call and continues with its
    answer. *)
Inductive Prog (R : Type) : Type :=
| Ret (r : R)
| Throw (e : Exn)
| Vis {X : Type} (e : Eff X) (k : X -> Prog R).

Arguments Ret {R} r.
Arguments Throw {R} e.
Arguments Vis {R X} e k.

Fixpoint bind {A B} (p : Prog A) (f : A -> Prog B) : Prog B :=
  match p with
  | Ret r => f r
  | Throw e => Throw e
  | Vis e k => Vis e (fun x => bind (k x) f)
  end.

#[global] Instance Prog_ret : MRet Prog := @Ret.
#[global] Instance Prog_bind : MBind Prog := fun _ _ f p => bind p f.

Definition call {X} (e : Eff X) : Prog X := Vis e Ret.

(** [l[i]] *)
Definition item {A} (l : list A) (i : nat) : Prog A :=
  match l !! i with
  | Some x => Ret x
  | None => Throw IndexError
  end.

(** [l[-1]] *)
Definition item_last {A} (l : list A) : Prog A :=
  match last l with
  | Some x => Ret x
  | None => Throw IndexError
  end.

(** [m[key]] on a dict *)
Definition getitem {A} (m : gmap string A) (key : string) : Prog A :=
  match m !! key with
  | Some x => Ret x
  | None => Throw (KeyError key)
  end.

(** [assert cond, msg] *)
Definition assert_ (cond : bool) (msg : string) : Prog unit :=
  if cond then Ret tt else Throw (AssertionError msg).

(** [completion.choices[0].message.content.strip()] *)
Definition content_strip (completion : ChatCompletion.t) : Prog string :=
  choice ← item (ChatCompletion.choices completion) 0;
  match ChatCompletionMessage.content (Choice.message choice) with
  | Some s => Ret (strip s)
  | None => Throw (AttributeError "strip")
  end.

Definition self_name : Prog string := call (getattr name "name").
Definition self_kialo : Prog Kialo := call (getattr kialo "kialo").
Definition self_model : Prog string := call (getattr model "model").
Definition self_client : Prog Client := call (getattr client "client").

(** ** The agents *)

(** Rich-markup log line of [KialoAgent.response]. *)
Definition chose_similar_claim (neighbor : string) : string :=
  "[black on bright_green]Chose similar claim from Kialo:" +:+ nl +:+
  neighbor +:+ "[/black on bright_green]".

Module KialoAgent.

Definition __init__ (name : string) (kialo : Kialo) : Prog unit :=
  call (setattr (set_name name));;
  call (setattr (set_kialo kialo)).

Definition response : Prog string :=
  d ← call get_dialogue;
  if bool_decide (length d = 0) then
    (* First turn.  Just start with a random claim from the Kialo database. *)
    kialo ← self_kialo;
    chain ← call (random_chain kialo);
    item chain 0
  else
    turn ← item_last d;
    let previous_turn := Turn.content turn in
    (* Pick one of the top-3 most similar claims in the Kialo database,
       restricting to the ones that list "con" arguments. *)
    kialo ← self_kialo;
    neighbors ← call (closest_claims kialo previous_turn 3 "has_cons");
    assert_ (bool_decide (neighbors ≠ []))
            "No claims to choose from; is Kialo data structure empty?";;
    neighbor ← call (random_choice neighbors);
    call (log_info (chose_similar_claim neighbor));;
    (* Choose one of its "con" arguments as our response. *)
    kialo ← self_kialo;
    opposing ← getitem (cons kialo) neighbor;
    call (random_choice opposing).

End KialoAgent.

Module ContextualKialoAgent.

Definition __init__ := KialoAgent.__init__.

Definition response : Prog string :=
  dialogue ← call get_dialogue;
  let history := map Turn.content dialogue in
  let weighted_query := join " " (last_n 3 history) in
  kialo ← self_kialo;
  results ← call (closest_claims kialo weighted_query 3 "has_cons");
  if bool_decide (results ≠ []) then
    call (random_choice results)
  else
    Ret "I'm sorry, I couldn't find a relevant response.".

End ContextualKialoAgent.

Module LLMAgent.

(** Modelled from the spec: [LLMAgent.__init__] lives in [agents.py],
    outside the module; a generation-dependent agent holds its name, its
    model identifier and its client. *)
Definition __init__ (name model : string) (client : Client) : Prog unit :=
  call (setattr (set_name name));;
  call (setattr (set_model model));;
  call (setattr (set_client client)).

End LLMAgent.

(** [d[-1]["content"] if d else ""] *)
Definition last_turn_content (d : Dialogue) : Prog string :=
  if bool_decide (d ≠ []) then
    turn ← item_last d;
    Ret (Turn.content turn)
  else
    Ret "".

Module RAGAgent.

Definition __init__ (name model : string) (client : Client) (kialo : Kialo) : Prog unit :=
  LLMAgent.__init__ name model client;;
  call (setattr (set_kialo kialo)).

Definition paraphrase_prompt (last_turn : string) : list Message.t :=
  [ Message.mk "system" "Paraphrase the following statement to make it more explicit and detailed:";
    Message.mk "user" last_turn ].

Definition final_prompt (claims_summary last_turn : string) : list Message.t :=
  [ Message.mk "system"
      ("Generate a response based on the user's statement and the following related claims:"
       +:+ nl +:+ claims_summary);
    Message.mk "user" last_turn ].

Definition response : Prog string :=
  (* Step 1: Query Formation *)
  d ← call get_dialogue;
  last_turn ← last_turn_content d;
  client ← self_client;
  model ← self_model;
  query ← call (create client (paraphrase_prompt last_turn) model);
  explicit_statement ← content_strip query;
  (* Step 2: Retrieval *)
  kialo ← self_kialo;
  related_claims ← call (closest_claims kialo explicit_statement 3 "has_cons");
  let claims_summary := join nl related_claims in
  (* Step 3: Retrieval-Augmented Generation *)
  client ← self_client;
  model ← self_model;
  final_response ← call (create client (final_prompt claims_summary last_turn) model);
  content_strip final_response.

End RAGAgent.

Module AwsomAgent.

Definition __init__ := LLMAgent.__init__.

Definition thought_prompt (last_turn : string) : list Message.t :=
  [ Message.mk "system"
      "You are a helpful assistant that analyzes dialogue to infer intent and emotional tone.";
    Message.mk "user"
      ("Analyze the following human statement and summarize their intent, tone, and possible motivations: "
       +:+ last_turn) ].

Definition response_prompt (private_thought last_turn : string) : list Message.t :=
  [ Message.mk "system"
      "You are an assistant that responds thoughtfully to human dialogue based on analyzed context.";
    Message.mk "user"
      ("Using the following analysis: " +:+ private_thought +:+
       ", generate a helpful and contextually appropriate response to the statement: "
       +:+ last_turn) ].

Definition response : Prog string :=
  (* Step 1: Extract last human turn *)
  dialogue ← call get_dialogue;
  last_turn ← last_turn_content dialogue;
  (* Step 2: Chain of Thought - Private Analysis *)
  client ← self_client;
  model ← self_model;
  completion ← call (create client (thought_prompt last_turn) model);
  private_thought ← content_strip completion;
  (* Step 3: Generate Public Response with Private Thought Integration *)
  client ← self_client;
  model ← self_model;
  completion ← call (create client (response_prompt private_thought last_turn) model);
  public_response ← content_strip completion;
  Ret public_response.

End AwsomAgent.

(** ** Running a program *)

(** What the collaborators see of a run, in order. *)
Inductive Call :=
| Call_closest_claims (query : string) (n : nat) (kind : string)
| Call_random_chain
| Call_random_choice (seq : list string)
| Call_log_info (msg : string)
| Call_create (messages : list Message.t) (model : string).

(** The objects a call of [response] can reach: the agent [self], the
    dialogue it was handed, and the state of the collaborators (how far
    the random source and the generation service have been used, and the
    calls seen so far, oldest first). *)
Record Heap := {
  self : Obj;
  dialogue : Dialogue;
  rng_pos : nat;
  llm_calls : nat;
  trace : list Call
}.

Definition with_self (o : Obj) (h : Heap) : Heap :=
  {| self := o; dialogue := dialogue h; rng_pos := rng_pos h;
     llm_calls := llm_calls h; trace := trace h |}.

Definition record (c : Call) (h : Heap) : Heap :=
  {| self := self h; dialogue := dialogue h; rng_pos := rng_pos h;
     llm_calls := llm_calls h; trace := trace h ++ [c] |}.

Definition next_draw (h : Heap) : Heap :=
  {| self := self h; dialogue := dialogue h; rng_pos := S (rng_pos h);
     llm_calls := llm_calls h; trace := trace h |}.

Definition next_llm_call (h : Heap) : Heap :=
  {| self := self h; dialogue := dialogue h; rng_pos := rng_pos h;
     llm_calls := S (llm_calls h); trace := trace h |}.

(** The random source: the raw draws, by position. *)
Abbreviation Tape := (nat -> nat).

(** [random.choice(seq)] with the raw draw [r]: [IndexError] on an empty
    sequence, else the element at [r] reduced below [len(seq)]. *)
Definition choose (seq : list string) (r : nat) : Exn + string :=
  match seq !! (r mod length seq) with
  | Some x => inr x
  | None => inl IndexError
  end.

Definition handle {X} (tape : Tape) (e : Eff X) (h : Heap) : (Exn + X) * Heap :=
  match e in Eff X return (Exn + X) * Heap with
  | getattr proj attr =>
      (match proj (self h) with
       | Some v => inr v
       | None => inl (AttributeError attr)
       end, h)
  | setattr upd => (inr tt, with_self (upd (self h)) h)
  | get_dialogue => (inr (dialogue h), h)
  | closest_claims k query n kind =>
      (inr (closest_claims_impl k query n kind),
       record (Call_closest_claims query n kind) h)
  | random_chain k =>
      (inr (random_chain_impl k (tape (rng_pos h))),
       record Call_random_chain (next_draw h))
  | random_choice seq =>
      (choose seq (tape (rng_pos h)),
       record (Call_random_choice seq) (next_draw h))
  | log_info msg => (inr tt, record (Call_log_info msg) h)
  | create c messages model =>
      (create_impl c (llm_calls h) messages model,
       record (Call_create messages model) (next_llm_call h))
  end.

(** How a call ends. *)
Inductive Outcome (R : Type) :=
| Returned (r : R)
| Raised (e : Exn).

Arguments Returned {R} r.
Arguments Raised {R} e.

Fixpoint run {R} (tape : Tape) (p : Prog R) (h : Heap) : Outcome R * Heap :=
  match p with
  | Ret r => (Returned r, h)
  | Throw e => (Raised e, h)
  | Vis e k =>
      match handle tape e h with
      | (inr x, h') => run tape (k x) h'
      | (inl ex, h') => (Raised ex, h')
      end
  end.

(** The calls made by a run that started in [h] and ended in [h']. *)
Definition calls_since (h h' : Heap) : list Call :=
  drop (length (trace h)) (trace h').

(** Does the call assign an attribute of [self]? *)
Definition is_setattr {X} (e : Eff X) : bool :=
  match e with
  | setattr _ => true
  | _ => false
  end.

(** A program that never assigns an attribute. *)
Inductive read_only {R} : Prog R -> Prop :=
| read_only_Ret r : read_only (Ret r)
| read_only_Throw e : read_only (Throw e)
| read_only_Vis {X} (e : Eff X) k :
    is_setattr e = false ->
    (forall x, read_only (k x)) ->
    read_only (Vis e k).

(** ** The distribution of a run *)

(** The answers among which a call picks at random: [random.choice] on a
    non-empty sequence picks among its elements. *)
Definition draws {X} (e : Eff X) : option (list X) :=
  match e in Eff X return option (list X) with
  | random_choice (x :: seq) => Some (x :: seq)
  | _ => None
  end.

(** The weighted outcomes of a program started with weight [q]: a
    [random.choice] gives each element of its sequence the same share of
    the weight, every other call is answered as in [run]. *)
Fixpoint dist {R} (tape : Tape) (q : Q) (p : Prog R) (h : Heap)
  : list (Q * (Outcome R * Heap)) :=
  match p with
  | Ret r => [(q, (Returned r, h))]
  | Throw e => [(q, (Raised e, h))]
  | Vis e k =>
      match draws e with
      | Some seq =>
          let h' := snd (handle tape e h) in
          flat_map
            (fun x => dist tape (q * (1 # Pos.of_nat (length seq)))%Q (k x) h')
            seq
      | None =>
          match handle tape e h with
          | (inr x, h') => dist tape q (k x) h'
          | (inl ex, h') => [(q, (Raised ex, h'))]
          end
      end
  end.

(** The weighted results of a program, without the final heaps. *)
Definition weighted_results {R} (tape : Tape) (q : Q) (p : Prog R) (h : Heap)
  : list (Q * Outcome R) :=
  map (fun x => (x.1, x.2.1)) (dist tape q p h).

(** The total weight of a list of weighted outcomes. *)
Definition total {A} (d : list (Q * A)) : Q :=
  foldr (fun x acc => (x.1 + acc)%Q) 0%Q d.

(** ** Vocabulary of the statements *)

(** The text of the most recent turn; the empty string for an empty
    dialogue. *)
Definition last_content (d : Dialogue) : string :=
  from_option Turn.content "" (last d).

(** [completion.choices[0].message.content], when all of it is there. *)
Definition first_content (completion : ChatCompletion.t) : option string :=
  choice ← ChatCompletion.choices completion !! 0;
  ChatCompletionMessage.content (Choice.message choice).

(** [sub] occurs in [s]. *)
Definition occurs_in (sub s : string) : Prop :=
  exists pre post, s = pre +:+ sub +:+ post.

(** The generation calls among the calls of a run. *)
Definition is_generation (c : Call) : bool :=
  match c with
  | Call_create _ _ => true
  | _ => false
  end.

Definition generation_calls (l : list Call) : list Call :=
  List.filter is_generation l.

(** The retrieval calls among the calls of a run. *)
Definition is_retrieval (c : Call) : bool :=
  match c with
  | Call_closest_claims _ _ _ | Call_random_chain => true
  | _ => false
  end.

Definition retrieval_calls (l : list Call) : list Call :=
  List.filter is_retrieval l.

(** Two heaps that differ at most in the calls seen so far. *)
Definition same_but_trace (h1 h2 : Heap) : Prop :=
  self h1 = self h2 /\ dialogue h1 = dialogue h2 /\
  rng_pos h1 = rng_pos h2 /\ llm_calls h1 = llm_calls h2.

(** The message of the assertion in [KialoAgent.response]. *)
Definition assertion_message : string :=
  "No claims to choose from; is Kialo data structure empty?".

(** The four [response] methods of the module. *)
Definition responses : list (Prog string) :=
  [ KialoAgent.response; ContextualKialoAgent.response;
    RAGAgent.response; AwsomAgent.response ].

(** The heap [h] with the collaborators in the state they have in [h']:
    what a later call would start from if the calls in between had left
    no mark on the agent and the dialogue. *)
Definition collaborators_as (h' h : Heap) : Heap :=
  {| self := self h; dialogue := dialogue h; rng_pos := rng_pos h';
     llm_calls := llm_calls h'; trace := trace h |}.

(** ** Sample collaborators *)

(** A heap for a fresh call: nothing drawn, nothing generated, nothing
    seen. *)
Definition fresh_heap (o : Obj) (d : Dialogue) : Heap :=
  {| self := o; dialogue := d; rng_pos := 0; llm_calls := 0; trace := [] |}.

(** The object a constructor leaves behind. *)
Definition construct (init : Prog unit) : Obj :=
  self (snd (run (fun _ => 0) init (fresh_heap new_object []))).

(** A corpus with the root claims A and B, where A has the one opposing
    child C and B has none: only A is ever returned as a claim with
    con-arguments. *)
Definition corpus_AB : Kialo :=
  {| cons := {[ "A" := ["C"] ]};
     closest_claims_impl := fun _ n kind =>
       if String.eqb kind "has_cons" then take n ["A"] else take n ["A"; "B"; "C"];
     random_chain_impl := fun r => if Nat.even r then ["A"; "C"] else ["B"] |}.

(** A corpus where A has the opposing children C and D, and B has the
    opposing child E. *)
Definition corpus_debate : Kialo :=
  {| cons := {[ "A" := ["C"; "D"]; "B" := ["E"] ]};
     closest_claims_impl := fun _ n kind =>
       if String.eqb kind "has_cons" then take n ["A"; "B"]
       else take n ["A"; "B"; "C"; "D"; "E"];
     random_chain_impl := fun r => if Nat.even r then ["A"; "D"] else ["B"; "E"] |}.

(** A corpus without any claim. *)
Definition corpus_empty : Kialo :=
  {| cons := ∅;
     closest_claims_impl := fun _ _ _ => [];
     random_chain_impl := fun _ => [] |}.

Definition completion_of (s : string) : ChatCompletion.t :=
  ChatCompletion.mk [Choice.mk (ChatCompletionMessage.mk (Some s))].

(** A client that answers every call, one that fails every call, and one
    that answers the first call and fails from the second on. *)
Definition client_ok : Client :=
  {| create_impl := fun n _ _ =>
       inr (completion_of (if Nat.eqb n 0 then " first answer " else " second answer ")) |}.

Definition client_down : Client :=
  {| create_impl := fun _ _ _ => inl (APIError "rate limit") |}.

Definition client_down_after_one : Client :=
  {| create_impl := fun n _ _ =>
       if Nat.eqb n 0 then inr (completion_of " first answer ")
       else inl (APIError "rate limit") |}.

(** The agents the module instantiates, over a given corpus, model and
    client. *)
Definition akiko (k : Kialo) : Obj := construct (KialoAgent.__init__ "Akiko" k).
Definition akiki (k : Kialo) : Obj := construct (ContextualKialoAgent.__init__ "Akiki" k).
Definition aragorn (default_model : string) (default_client : Client) (k : Kialo) : Obj :=
  construct (RAGAgent.__init__ "Aragorn" default_model default_client k).
Definition awsom (default_model : string) (default_client : Client) : Obj :=
  construct (AwsomAgent.__init__ "Awsom" default_model default_client).

Definition user_says (text : string) : Dialogue := [Turn.mk "user" text].

Definition sample_tape : Tape := fun n => 2 * n + 1.

(** Whitespace beyond ASCII, in UTF-8: the no-break space U+00A0, the
    next-line character U+0085, the em space U+2003 and the ideographic
    space U+3000; and a client whose answers are padded with them. *)
Definition no_break_space : string := String "194"%char (String "160"%char "").
Definition next_line : string := String "194"%char (String "133"%char "").
Definition em_space : string :=
  String "226"%char (String "128"%char (String "131"%char "")).
Definition ideographic_space : string :=
  String "227"%char (String "128"%char (String "128"%char "")).

Definition client_padded : Client :=
  {| create_impl := fun n _ _ =>
       inr (completion_of
              (if Nat.eqb n 0
               then no_break_space +:+ " first answer" +:+ ideographic_space
               else em_space +:+ "second answer" +:+ next_line +:+ nl)) |}.

(** Heaps for a fresh call of each agent. *)
Definition heap_akiko : Heap :=
  fresh_heap (akiko corpus_AB) (user_says "A is true").

Definition heap_aragorn (cl : Client) (d : Dialogue) : Heap :=
  fresh_heap (aragorn "gpt" cl corpus_AB) d.

Definition heap_awsom (cl : Client) (d : Dialogue) : Heap :=
  fresh_heap (awsom "gpt" cl) d.

(** ** Vocabulary of the further properties *)

(** The call the collaborators see when a method makes the step [e], if
    they see one. *)
Definition call_of {X} (e : Eff X) : option Call :=
  match e with
  | closest_claims _ query n kind => Some (Call_closest_claims query n kind)
  | random_chain _ => Some Call_random_chain
  | random_choice seq => Some (Call_random_choice seq)
  | log_info msg => Some (Call_log_info msg)
  | create _ messages model => Some (Call_create messages model)
  | _ => None
  end.

(** The number of calls satisfying [P] that the step [e] makes. *)
Definition counts (P : Call -> bool) (X : Type) (e : Eff X) : nat :=
  match call_of e with
  | Some c => if P c then 1 else 0
  | None => 0
  end.

(** The number of reads of the dialogue that the step [e] makes. *)
Definition reads_dialogue (X : Type) (e : Eff X) : nat :=
  match e with
  | get_dialogue => 1
  | _ => 0
  end.

(** Along every path, the steps of the program weigh at most [n]. *)
Inductive at_most (w : forall X, Eff X -> nat) {R} : nat -> Prog R -> Prop :=
| at_most_Ret n r : at_most w n (Ret r)
| at_most_Throw n e : at_most w n (Throw e)
| at_most_Vis n {X} (e : Eff X) k :
    w X e <= n ->
    (forall x, at_most w (n - w X e) (k x)) ->
    at_most w n (Vis e k).

(** The calls that use the random source. *)
Definition is_random (c : Call) : bool :=
  match c with
  | Call_random_choice _ | Call_random_chain => true
  | _ => false
  end.

Definition any_call (c : Call) : bool := true.

(** Two heaps that differ at most in the dialogue. *)
Definition same_but_dialogue (h1 h2 : Heap) : Prop :=
  self h1 = self h2 /\ rng_pos h1 = rng_pos h2 /\
  llm_calls h1 = llm_calls h2 /\ trace h1 = trace h2.

(** Sample heaps: a completion without choices and one without text, a
    client that answers with them, and dialogues that share their last
    turns. *)
Definition completion_without_choices : ChatCompletion.t := ChatCompletion.mk [].

Definition completion_without_text : ChatCompletion.t :=
  ChatCompletion.mk [Choice.mk (ChatCompletionMessage.mk None)].

Definition client_no_choices : Client :=
  {| create_impl := fun _ _ _ => inr completion_without_choices |}.

Definition client_no_text_second : Client :=
  {| create_impl := fun n _ _ =>
       if Nat.eqb n 0 then inr (completion_of " first answer ")
       else inr completion_without_text |}.

Definition long_dialogue : Dialogue :=
  [ Turn.mk "bot" "zero"; Turn.mk "user" "one"; Turn.mk "bot" "two";
    Turn.mk "user" "three"; Turn.mk "bot" "four" ].

Definition short_dialogue : Dialogue :=
  [ Turn.mk "bot" "two"; Turn.mk "user" "three"; Turn.mk "bot" "four" ].

(** A corpus that offers a candidate without any con-argument. *)
Definition corpus_unopposed : Kialo :=
  {| cons := {[ "B" := [] ]};
     closest_claims_impl := fun _ n _ => take n ["B"];
     random_chain_impl := fun _ => ["B"] |}.

(** What [.choices[0].message.content.strip()] raises on a completion
    that has no first choice with text. *)
Definition malformed (completion : ChatCompletion.t) : Exn :=
  match ChatCompletion.choices completion with
  | [] => IndexError
  | _ :: _ => AttributeError "strip"
  end.

Arguments strip : simpl never.
Arguments join : simpl never.
Arguments last_n : simpl never.
Arguments chose_similar_claim : simpl never.
Arguments RAGAgent.paraphrase_prompt : simpl never.
Arguments RAGAgent.final_prompt : simpl never.
Arguments AwsomAgent.thought_prompt : simpl never.
Arguments AwsomAgent.response_prompt : simpl never.
Arguments choose : simpl never.

(** * Properties *)

(** ** General facts about runs *)

Lemma run_bind {A B} tape (p : Prog A) (f : A -> Prog B) h :
  run tape (bind p f) h =
  match run tape p h with
  | (Returned a, h') => run tape (f a) h'
  | (Raised e, h') => (Raised e, h')
  end.
Proof.
  revert h. induction p as [r|e|X e k IH]; intros h; simpl; try reflexivity.
  destruct (handle tape e h) as [[ex|x] h']; [reflexivity|apply IH].
Qed.

(** No call ever touches the dialogue. *)
Lemma handle_dialogue {X} tape (e : Eff X) h :
  dialogue (snd (handle tape e h)) = dialogue h.
Proof. destruct e; reflexivity. Qed.

Lemma run_dialogue {R} tape (p : Prog R) h :
  dialogue (snd (run tape p h)) = dialogue h.
Proof.
  revert h. induction p as [r|e|X e k IH]; intros h; simpl; try reflexivity.
  pose proof (handle_dialogue tape e h) as Hd.
  destruct (handle tape e h) as [[ex|x] h']; simpl in *; [exact Hd|].
  rewrite IH. exact Hd.
Qed.

(** Only an attribute assignment touches [self]. *)
Lemma handle_self {X} tape (e : Eff X) h :
  is_setattr e = false -> self (snd (handle tape e h)) = self h.
Proof. destruct e; simpl; intros; try reflexivity; discriminate. Qed.

Lemma run_read_only {R} tape (p : Prog R) h :
  read_only p -> self (snd (run tape p h)) = self h.
Proof.
  intros Hp. revert h. induction Hp as [r|e|X e k He Hk IH]; intros h; simpl;
    try reflexivity.
  pose proof (handle_self tape e h He) as Hs.
  destruct (handle tape e h) as [[ex|x] h']; simpl in *; [exact Hs|].
  rewrite IH. exact Hs.
Qed.

Lemma read_only_bind {A B} (p : Prog A) (f : A -> Prog B) :
  read_only p -> (forall a, read_only (f a)) -> read_only (bind p f).
Proof.
  intros Hp Hf. induction Hp as [r|e|X e k He Hk IH]; simpl.
  - apply Hf.
  - constructor.
  - constructor; [exact He|exact IH].
Qed.

(** The trace only grows. *)
Lemma handle_trace {X} tape (e : Eff X) h :
  exists l, trace (snd (handle tape e h)) = trace h ++ l.
Proof.
  destruct e; simpl; eauto; exists []; by rewrite app_nil_r.
Qed.

Lemma run_trace {R} tape (p : Prog R) h :
  exists l, trace (snd (run tape p h)) = trace h ++ l.
Proof.
  revert h. induction p as [r|e|X e k IH]; intros h; simpl;
    try (exists []; by rewrite app_nil_r).
  destruct (handle_trace tape e h) as [l1 Hl1].
  destruct (handle tape e h) as [[ex|x] h']; simpl in *; [eauto|].
  destruct (IH x h') as [l2 Hl2]. exists (l1 ++ l2).
  by rewrite Hl2, Hl1, app_assoc.
Qed.

(** Every run is one of the weighted outcomes. *)
Lemma run_in_dist {R} tape (p : Prog R) h q :
  exists q', (q', run tape p h) ∈ dist tape q p h.
Proof.
  revert h q. induction p as [r|e|X e k IH]; intros h q; simpl;
    try (eexists; apply list_elem_of_singleton; reflexivity).
  destruct (draws e) as [seq|] eqn:Hd.
  - destruct e; simpl in Hd; try discriminate.
    destruct seq0 as [|x0 seq0]; [discriminate|]. injection Hd as <-.
    simpl handle. unfold choose.
    destruct (lookup_lt_is_Some_2 (x0 :: seq0)
                (tape (rng_pos h) mod length (x0 :: seq0))) as [x Hx].
    { apply Nat.mod_upper_bound. discriminate. }
    rewrite Hx.
    destruct (IH x (record (Call_random_choice (x0 :: seq0)) (next_draw h))
                (q * (1 # Pos.of_nat (length (x0 :: seq0))))%Q) as [q' Hq'].
    exists q'. apply list_elem_of_In, in_flat_map. exists x. split.
    + apply list_elem_of_In. eapply list_elem_of_lookup_2, Hx.
    + apply list_elem_of_In, Hq'.
  - destruct (handle tape e h) as [[ex|x] h'].
    + eexists; apply list_elem_of_singleton; reflexivity.
    + apply IH.
Qed.

Lemma total_app {A} (d1 d2 : list (Q * A)) :
  (total (d1 ++ d2) == total d1 + total d2)%Q.
Proof.
  induction d1 as [|x d1 IH]; simpl.
  - by rewrite Qplus_0_l.
  - rewrite IH. apply Qplus_assoc.
Qed.

Lemma total_flat_map {A B} (f : A -> list (Q * B)) (w : Q) l :
  (forall x, total (f x) == w)%Q ->
  (total (flat_map f l) == inject_Z (Z.of_nat (length l)) * w)%Q.
Proof.
  intros Hf. induction l as [|x l IH].
  - simpl. by rewrite Qmult_0_l.
  - change (flat_map f (x :: l)) with (f x ++ flat_map f l).
    rewrite total_app, IH, Hf.
    change (length (x :: l)) with (S (length l)).
    rewrite Nat2Z.inj_succ. unfold Z.succ. rewrite inject_Z_plus. ring.
Qed.

Lemma share_total (q : Q) n :
  n ≠ 0 -> (inject_Z (Z.of_nat n) * (q * (1 # Pos.of_nat n)) == q)%Q.
Proof.
  intros Hn. destruct n as [|n]; [done|].
  rewrite <- Pos.of_nat_succ.
  unfold Qeq, Qmult, inject_Z. simpl.
  rewrite Pos.mul_1_l, Pos2Z.inj_mul, Zpos_P_of_succ_nat, Nat2Z.inj_succ. ring.
Qed.

(** The weights of the outcomes add up to the weight the run started
    with. *)
Lemma dist_total {R} tape (p : Prog R) q h : (total (dist tape q p h) == q)%Q.
Proof.
  revert q h. induction p as [r|e|X e k IH]; intros q h; simpl;
    try apply Qplus_0_r.
  destruct (draws e) as [seq|] eqn:Hd.
  - rewrite (total_flat_map _ (q * (1 # Pos.of_nat (length seq)))%Q)
      by (intros x; apply IH).
    apply share_total.
    destruct e; simpl in Hd; try discriminate.
    destruct seq0; [discriminate|]. by injection Hd as <-.
  - destruct (handle tape e h) as [[ex|x] h']; [apply Qplus_0_r|apply IH].
Qed.

(** ** Stepping through the methods *)

Lemma run_mbind {A B} tape (p : Prog A) (f : A -> Prog B) h :
  run tape (p ≫= f) h =
  match run tape p h with
  | (Returned a, h') => run tape (f a) h'
  | (Raised e, h') => (Raised e, h')
  end.
Proof. apply run_bind. Qed.

Lemma run_last_turn_content tape d h :
  run tape (last_turn_content d) h = (Returned (last_content d), h).
Proof.
  unfold last_turn_content, last_content, item_last.
  destruct d as [|t d]; [reflexivity|].
  rewrite bool_decide_true by discriminate.
  destruct (last (t :: d)) as [turn|] eqn:Hl; [reflexivity|].
  apply last_None in Hl. discriminate.
Qed.

Lemma run_content_strip tape completion s h :
  first_content completion = Some s ->
  run tape (content_strip completion) h = (Returned (strip s), h).
Proof.
  unfold first_content, content_strip, item. intros H.
  destruct (ChatCompletion.choices completion !! 0) as [choice|]; [|discriminate].
  simpl in *. rewrite H. reflexivity.
Qed.

Lemma calls_since_app h h' l :
  trace h' = trace h ++ l -> calls_since h h' = l.
Proof. unfold calls_since. intros ->. apply drop_app_length. Qed.

Ltac trace_of :=
  apply calls_since_app; simpl; rewrite <- ?app_assoc; reflexivity.

(** *** [RAGAgent.response] *)

Section RAG.
Context (tape : Tape) (h : Heap) (c : Client) (m : string) (k : Kialo).
Context (Hc : client (self h) = Some c) (Hm : model (self h) = Some m).

Let last_turn := last_content (dialogue h).
Let paraphrase := Call_create (RAGAgent.paraphrase_prompt last_turn) m.

Lemma RAG_run_paraphrase_fails e :
  create_impl c (llm_calls h) (RAGAgent.paraphrase_prompt last_turn) m = inl e ->
  run tape RAGAgent.response h = (Raised e, record paraphrase (next_llm_call h)).
Proof.
  intros H1. unfold RAGAgent.response.
  rewrite run_mbind. simpl (run tape (call get_dialogue) h). cbv beta iota.
  rewrite run_mbind, run_last_turn_content.
  simpl. rewrite Hc, Hm. fold last_turn. rewrite H1. reflexivity.
Qed.

Context (Hk : kialo (self h) = Some k).
Context (completion1 : ChatCompletion.t) (s1 : string).
Context (H1 : create_impl c (llm_calls h) (RAGAgent.paraphrase_prompt last_turn) m
              = inr completion1).
Context (Hs1 : first_content completion1 = Some s1).

Let related := closest_claims_impl k (strip s1) 3 "has_cons".
Let retrieval := Call_closest_claims (strip s1) 3 "has_cons".
Let final := Call_create (RAGAgent.final_prompt (join nl related) last_turn) m.
Let h_final :=
  record final (next_llm_call (record retrieval (record paraphrase (next_llm_call h)))).

Lemma RAG_run_prefix :
  run tape RAGAgent.response h =
  match create_impl c (S (llm_calls h))
          (RAGAgent.final_prompt (join nl related) last_turn) m with
  | inl e => (Raised e, h_final)
  | inr completion2 => run tape (content_strip completion2) h_final
  end.
Proof.
  unfold RAGAgent.response.
  rewrite run_mbind. simpl (run tape (call get_dialogue) h). cbv beta iota.
  rewrite run_mbind, run_last_turn_content.
  simpl. rewrite Hc, Hm. fold last_turn. rewrite H1.
  rewrite run_mbind, (run_content_strip _ _ s1) by done.
  simpl. rewrite Hk, Hc, Hm. fold related.
  destruct (create_impl _ _ _ _); reflexivity.
Qed.

Lemma RAG_calls : calls_since h h_final = [paraphrase; retrieval; final].
Proof. trace_of. Qed.

End RAG.

(** *** [KialoAgent.response] *)

Lemma choose_nonempty seq r :
  seq ≠ [] ->
  exists x, seq !! (r mod length seq) = Some x /\ choose seq r = inr x.
Proof.
  intros Hne. unfold choose.
  destruct (lookup_lt_is_Some_2 seq (r mod length seq)) as [x Hx].
  { apply Nat.mod_upper_bound. by destruct seq. }
  exists x. by rewrite Hx.
Qed.

Section Kialo.
Context (tape : Tape) (h : Heap) (k : Kialo) (turn : Turn.t).
Context (Hlast : last (dialogue h) = Some turn) (Hk : kialo (self h) = Some k).

Let neighbors := closest_claims_impl k (Turn.content turn) 3 "has_cons".
Let retrieval := Call_closest_claims (Turn.content turn) 3 "has_cons".
Let h1 := record retrieval h.
Let h2 := record (Call_random_choice neighbors) (next_draw h1).

Lemma dialogue_not_empty : bool_decide (length (dialogue h) = 0) = false.
Proof.
  apply bool_decide_eq_false. intros Hlen. apply nil_length_inv in Hlen.
  rewrite Hlen in Hlast. discriminate.
Qed.

Lemma KialoAgent_run_no_neighbors :
  neighbors = [] ->
  run tape KialoAgent.response h = (Raised (AssertionError assertion_message), h1).
Proof.
  intros Hn. unfold KialoAgent.response.
  rewrite run_mbind. simpl (run tape (call get_dialogue) h). cbv beta iota.
  rewrite dialogue_not_empty. unfold item_last. rewrite Hlast.
  simpl. rewrite Hk. fold neighbors. rewrite Hn. reflexivity.
Qed.

Lemma KialoAgent_run_neighbor neighbor :
  choose neighbors (tape (rng_pos h)) = inr neighbor ->
  run tape KialoAgent.response h =
  let h3 := record (Call_log_info (chose_similar_claim neighbor)) h2 in
  match cons k !! neighbor with
  | None => (Raised (KeyError neighbor), h3)
  | Some opposing =>
      (match choose opposing (tape (S (rng_pos h))) with
       | inr claim => Returned claim
       | inl e => Raised e
       end,
       record (Call_random_choice opposing) (next_draw h3))
  end.
Proof.
  intros Hch. unfold KialoAgent.response.
  rewrite run_mbind. simpl (run tape (call get_dialogue) h). cbv beta iota.
  rewrite dialogue_not_empty. unfold item_last. rewrite Hlast.
  simpl. rewrite Hk. fold neighbors.
  assert (Hne : neighbors ≠ []).
  { intros Hn. rewrite Hn in Hch. discriminate. }
  rewrite bool_decide_true by exact Hne. simpl. rewrite Hch.
  simpl. rewrite Hk. unfold getitem.
  destruct (cons k !! neighbor) as [opposing|]; [|reflexivity].
  simpl. destruct (choose opposing _); reflexivity.
Qed.

End Kialo.

Lemma dist_random_choice {R} tape q seq (k : string -> Prog R) h :
  seq ≠ [] ->
  dist tape q (Vis (random_choice seq) k) h =
  flat_map (fun x => dist tape (q * (1 # Pos.of_nat (length seq)))%Q (k x)
                       (record (Call_random_choice seq) (next_draw h))) seq.
Proof. destruct seq; [contradiction|reflexivity]. Qed.

Lemma flat_map_ext_in {A B} (f g : A -> list B) l :
  (forall x, x ∈ l -> f x = g x) -> flat_map f l = flat_map g l.
Proof.
  induction l as [|a l IH]; intros H; simpl; [reflexivity|].
  rewrite H by apply list_elem_of_here.
  rewrite IH; [reflexivity|]. intros x Hx. apply H. by apply list_elem_of_further.
Qed.

Lemma map_flat_map {A B C} (f : B -> C) (g : A -> list B) l :
  map f (flat_map g l) = flat_map (fun x => map f (g x)) l.
Proof.
  induction l as [|a l IH]; simpl; [reflexivity|].
  by rewrite map_app, IH.
Qed.

Lemma flat_map_singleton {A B} (f : A -> B) l :
  flat_map (fun x => [f x]) l = map f l.
Proof. induction l as [|a l IH]; simpl; [reflexivity|]. by rewrite IH. Qed.

Section KialoDist.
Context (tape : Tape) (q : Q) (h : Heap) (k : Kialo) (turn : Turn.t).
Context (Hlast : last (dialogue h) = Some turn) (Hk : kialo (self h) = Some k).

Let neighbors := closest_claims_impl k (Turn.content turn) 3 "has_cons".

Context (Hne : neighbors ≠ []).
Context (Hcons : forall nb, nb ∈ neighbors ->
           exists opposing, cons k !! nb = Some opposing /\ opposing ≠ []).

Lemma KialoAgent_weighted_results :
  weighted_results tape q KialoAgent.response h =
  flat_map (fun nb =>
    let opposing := default [] (cons k !! nb) in
    map (fun claim =>
           ((q * (1 # Pos.of_nat (length neighbors))
               * (1 # Pos.of_nat (length opposing)))%Q, Returned claim))
        opposing) neighbors.
Proof.
  unfold weighted_results, KialoAgent.response.
  simpl. rewrite (dialogue_not_empty h turn Hlast).
  unfold item_last. rewrite Hlast.
  simpl. rewrite Hk. fold neighbors. simpl.
  rewrite bool_decide_true by exact Hne.
  change (assert_ true ?msg ≫= ?f) with (f tt). cbv beta.
  rewrite dist_random_choice by exact Hne.
  rewrite map_flat_map. apply flat_map_ext_in. intros nb Hnb.
  destruct (Hcons nb Hnb) as (opposing & Hopp & Hone).
  simpl. rewrite Hk. unfold getitem. rewrite Hopp. simpl.
  destruct opposing as [|c0 cs]; [done|]. cbv beta iota.
  rewrite map_flat_map.
  apply (flat_map_singleton
           (fun x => ((q * (1 # Pos.of_nat (length neighbors))
                         * (1 # Pos.of_nat (length (c0 :: cs))))%Q,
                      @Returned string x))).
Qed.
End KialoDist.

(** *** [ContextualKialoAgent.response] *)

Section Contextual.
Context (tape : Tape) (h : Heap) (k : Kialo).
Context (Hk : kialo (self h) = Some k).

Let weighted_query := join " " (last_n 3 (map Turn.content (dialogue h))).
Let results := closest_claims_impl k weighted_query 3 "has_cons".
Let h1 := record (Call_closest_claims weighted_query 3 "has_cons") h.

Lemma Contextual_run_no_results :
  results = [] ->
  run tape ContextualKialoAgent.response h =
  (Returned "I'm sorry, I couldn't find a relevant response.", h1).
Proof.
  intros Hr. unfold ContextualKialoAgent.response.
  simpl. rewrite Hk. fold weighted_query results. rewrite Hr. reflexivity.
Qed.

Lemma Contextual_run_results :
  results ≠ [] ->
  run tape ContextualKialoAgent.response h =
  (match choose results (tape (rng_pos h)) with
   | inr reply => Returned reply
   | inl e => Raised e
   end,
   record (Call_random_choice results) (next_draw h1)).
Proof.
  intros Hr. unfold ContextualKialoAgent.response.
  simpl. rewrite Hk. fold weighted_query results.
  rewrite bool_decide_true by exact Hr. simpl.
  destruct (choose results _); reflexivity.
Qed.

End Contextual.

(** *** [AwsomAgent.response] *)

Section Awsom.
Context (tape : Tape) (h : Heap) (c : Client) (m : string).
Context (Hc : client (self h) = Some c) (Hm : model (self h) = Some m).

Let last_turn := last_content (dialogue h).
Let analysis := Call_create (AwsomAgent.thought_prompt last_turn) m.

Lemma Awsom_run_analysis_fails e :
  create_impl c (llm_calls h) (AwsomAgent.thought_prompt last_turn) m = inl e ->
  run tape AwsomAgent.response h = (Raised e, record analysis (next_llm_call h)).
Proof.
  intros H1. unfold AwsomAgent.response.
  rewrite run_mbind. simpl (run tape (call get_dialogue) h). cbv beta iota.
  rewrite run_mbind, run_last_turn_content.
  simpl. rewrite Hc, Hm. fold last_turn. rewrite H1. reflexivity.
Qed.

Context (completion1 : ChatCompletion.t) (s1 : string).
Context (H1 : create_impl c (llm_calls h) (AwsomAgent.thought_prompt last_turn) m
              = inr completion1).
Context (Hs1 : first_content completion1 = Some s1).

Let public := Call_create (AwsomAgent.response_prompt (strip s1) last_turn) m.
Let h_final := record public (next_llm_call (record analysis (next_llm_call h))).

Lemma Awsom_run_prefix :
  run tape AwsomAgent.response h =
  match create_impl c (S (llm_calls h))
          (AwsomAgent.response_prompt (strip s1) last_turn) m with
  | inl e => (Raised e, h_final)
  | inr completion2 =>
      run tape (public_response ← content_strip completion2; Ret public_response)
          h_final
  end.
Proof.
  unfold AwsomAgent.response.
  rewrite run_mbind. simpl (run tape (call get_dialogue) h). cbv beta iota.
  rewrite run_mbind, run_last_turn_content.
  simpl. rewrite Hc, Hm. fold last_turn. rewrite H1.
  rewrite run_mbind, (run_content_strip _ _ s1) by done.
  simpl. rewrite Hc, Hm.
  destruct (create_impl _ _ _ _); reflexivity.
Qed.

Lemma Awsom_calls : calls_since h h_final = [analysis; public].
Proof. trace_of. Qed.

End Awsom.

(** *** None of the methods assigns an attribute *)

Lemma read_only_call {X} (e : Eff X) : is_setattr e = false -> read_only (call e).
Proof. intros He. constructor; [exact He|]. intros x. constructor. Qed.

Lemma read_only_mbind {A B} (p : Prog A) (f : A -> Prog B) :
  read_only p -> (forall a, read_only (f a)) -> read_only (p ≫= f).
Proof. apply read_only_bind. Qed.

Lemma read_only_item {A} (l : list A) i : read_only (item l i).
Proof. unfold item. destruct (l !! i); constructor. Qed.

Lemma read_only_item_last {A} (l : list A) : read_only (item_last l).
Proof. unfold item_last. destruct (last l); constructor. Qed.

Lemma read_only_getitem {A} (m : gmap string A) key : read_only (getitem m key).
Proof. unfold getitem. destruct (m !! key); constructor. Qed.

Lemma read_only_assert cond msg : read_only (assert_ cond msg).
Proof. destruct cond; constructor. Qed.

Lemma read_only_content_strip completion : read_only (content_strip completion).
Proof.
  unfold content_strip. apply read_only_mbind; [apply read_only_item|].
  intros choice. destruct (ChatCompletionMessage.content _); constructor.
Qed.

Lemma read_only_last_turn_content d : read_only (last_turn_content d).
Proof.
  unfold last_turn_content. case_bool_decide; [|constructor].
  apply read_only_mbind; [apply read_only_item_last|]. intros; constructor.
Qed.

Create HintDb read_only.
#[local] Hint Resolve read_only_item read_only_item_last read_only_getitem
  read_only_assert read_only_content_strip read_only_last_turn_content
  read_only_Ret read_only_Throw : read_only.

Ltac read_only_steps :=
  repeat first
    [ solve [eauto with read_only]
    | apply read_only_call; reflexivity
    | apply read_only_mbind; [|intros ?]
    | case_bool_decide
    | progress cbv zeta ].

Lemma KialoAgent_response_read_only : read_only KialoAgent.response.
Proof. unfold KialoAgent.response, self_kialo. read_only_steps. Qed.

Lemma ContextualKialoAgent_response_read_only :
  read_only ContextualKialoAgent.response.
Proof. unfold ContextualKialoAgent.response, self_kialo. read_only_steps. Qed.

Lemma RAGAgent_response_read_only : read_only RAGAgent.response.
Proof.
  unfold RAGAgent.response, self_kialo, self_client, self_model. read_only_steps.
Qed.

Lemma AwsomAgent_response_read_only : read_only AwsomAgent.response.
Proof.
  unfold AwsomAgent.response, self_client, self_model. read_only_steps.
Qed.

(** A constructor, by contrast, does assign. *)
Lemma KialoAgent_init_not_read_only name k :
  ~ read_only (KialoAgent.__init__ name k).
Proof.
  intros H.
  pose proof (run_read_only (fun _ => 0) _ (fresh_heap new_object []) H) as E.
  discriminate E.
Qed.

(** *** The calls seen so far do not influence a run *)

Lemma handle_same_but_trace {X} tape (e : Eff X) h1 h2 :
  same_but_trace h1 h2 ->
  fst (handle tape e h1) = fst (handle tape e h2) /\
  same_but_trace (snd (handle tape e h1)) (snd (handle tape e h2)).
Proof.
  intros (Hs & Hd & Hr & Hl). unfold same_but_trace.
  destruct e; simpl; rewrite ?Hs, ?Hd, ?Hr, ?Hl; auto.
Qed.

Lemma run_same_but_trace {R} tape (p : Prog R) h1 h2 :
  same_but_trace h1 h2 ->
  fst (run tape p h1) = fst (run tape p h2) /\
  same_but_trace (snd (run tape p h1)) (snd (run tape p h2)).
Proof.
  revert h1 h2. induction p as [r|e|X e k IH]; intros h1 h2 H; simpl; auto.
  destruct (handle_same_but_trace tape e h1 h2 H) as [Ha Hh].
  destruct (handle tape e h1) as [[ex1|x1] h1'], (handle tape e h2) as [[ex2|x2] h2'];
    simpl in *; try discriminate.
  - injection Ha as ->. auto.
  - injection Ha as ->. apply IH, Hh.
Qed.

(** *** Strings *)

Lemma append_assoc (s1 s2 s3 : string) : (s1 +:+ s2) +:+ s3 = s1 +:+ (s2 +:+ s3).
Proof.
  induction s1 as [|a s1 IH]; [reflexivity|].
  change (String a ((s1 +:+ s2) +:+ s3) = String a (s1 +:+ s2 +:+ s3)).
  by rewrite IH.
Qed.

Lemma append_nil_r (s : string) : s +:+ "" = s.
Proof.
  induction s as [|a s IH]; [reflexivity|].
  change (String a (s +:+ "") = String a s). by rewrite IH.
Qed.

Lemma occurs_in_append_r pre sub s : occurs_in sub s -> occurs_in sub (pre +:+ s).
Proof.
  intros (p & q & ->). exists (pre +:+ p), q. by rewrite append_assoc.
Qed.

Lemma join_cons sep x l :
  join sep (x :: l) = match l with [] => x | _ => x +:+ sep +:+ join sep l end.
Proof. destruct l; reflexivity. Qed.

Lemma occurs_in_join sep l x : x ∈ l -> occurs_in x (join sep l).
Proof.
  induction l as [|y l IH]; intros Hx; [by apply not_elem_of_nil in Hx|].
  rewrite join_cons. apply elem_of_cons in Hx as [->|Hx].
  - destruct l as [|z l].
    + exists "", "". simpl. by rewrite append_nil_r.
    + exists "", (sep +:+ join sep (z :: l)). reflexivity.
  - destruct l as [|z l]; [by apply not_elem_of_nil in Hx|].
    apply occurs_in_append_r, occurs_in_append_r, IH, Hx.
Qed.

(** *** [str.strip()] *)

Lemma text_cons cp chunk cs : text ((cp, chunk) :: cs) = chunk +:+ text cs.
Proof. reflexivity. Qed.

Lemma text_characters_bounded n s :
  String.length s <= n -> text (characters s) = s.
Proof.
  revert s. induction n as [|n IH]; intros s Hn.
  - destruct s; [reflexivity|simpl in Hn; lia].
  - destruct s as [|c0 s0]; [reflexivity|].
    cbn [characters]. cbv zeta.
    repeat case_match; subst; simpl in Hn;
      rewrite text_cons, IH by (simpl; lia); reflexivity.
Qed.

(** Reading the characters of a string loses nothing. *)
Lemma text_characters s : text (characters s) = s.
Proof. apply (text_characters_bounded (String.length s)). lia. Qed.

Lemma text_app cs1 cs2 : text (cs1 ++ cs2) = text cs1 +:+ text cs2.
Proof.
  induction cs1 as [|[cp chunk] cs1 IH]; [reflexivity|].
  rewrite <- app_comm_cons, !text_cons, IH. by rewrite append_assoc.
Qed.

Lemma lstrip_characters_suffix cs :
  exists pre, cs = pre ++ lstrip_characters cs.
Proof.
  induction cs as [|c cs [pre IH]]; [by exists []|].
  simpl. destruct (is_whitespace c.1).
  - exists (c :: pre). by rewrite <- app_comm_cons, <- IH.
  - by exists [].
Qed.

Lemma rstrip_characters_prefix cs :
  exists post, cs = rstrip_characters cs ++ post.
Proof.
  unfold rstrip_characters.
  destruct (lstrip_characters_suffix (rev cs)) as [pre H].
  exists (rev pre). rewrite <- rev_app_distr, <- H. by rewrite rev_involutive.
Qed.

(** [strip] only removes characters from the two ends. *)
Lemma strip_occurs_in s : occurs_in (strip s) s.
Proof.
  unfold strip.
  destruct (lstrip_characters_suffix (characters s)) as [pre Hpre].
  destruct (rstrip_characters_prefix (lstrip_characters (characters s)))
    as [post Hpost].
  exists (text pre), (text post).
  rewrite <- (text_characters s) at 1.
  rewrite Hpre, Hpost at 1. by rewrite !text_app.
Qed.

(** Nothing is left to strip at either end. *)
Lemma lstrip_characters_head cs c cs' :
  lstrip_characters cs = c :: cs' -> is_whitespace c.1 = false.
Proof.
  induction cs as [|d cs IH]; simpl; [discriminate|].
  destruct (is_whitespace d.1) eqn:Hd; [exact IH|]. by intros [= <- _].
Qed.

(** Whitespace of every width is removed from both ends and kept
    inside; a letter whose encoding ends in the byte of a space is not
    touched. *)
Example strip_unicode_whitespace :
  strip (no_break_space +:+ em_space +:+ nl +:+ "an" +:+ ideographic_space
         +:+ "answer" +:+ next_line +:+ " " +:+ ideographic_space)
  = "an" +:+ ideographic_space +:+ "answer" /\
  strip (String "195"%char (String "160"%char "")) =
  String "195"%char (String "160"%char "").
Proof. vm_compute. split; reflexivity. Qed.

(** ** The claims *)

(** C1.  For a non-empty dialogue whose most recent turn is [turn],
    [KialoAgent.response] first queries the corpus with exactly that
    turn's text, for 3 candidates, restricted to claims with
    con-arguments.  When the corpus answers with at least one candidate
    and every candidate has con-arguments (what [has_cons] promises), the
    method picks one candidate by [random.choice], then one of that
    candidate's [cons] by a second [random.choice], and returns it; the
    calls made are the retrieval, the two choices and the log line.  In
    the distribution of the run every candidate gets the share
    [1 / len(neighbors)], and within it every opposing claim the share
    [1 / len(cons[neighbor])]. *)
Theorem KialoAgent_response_opposing_claim
    (tape : Tape) (q : Q) (h : Heap) (k : Kialo) (turn : Turn.t) :
  last (dialogue h) = Some turn ->
  kialo (self h) = Some k ->
  let neighbors := closest_claims_impl k (Turn.content turn) 3 "has_cons" in
  let retrieval := Call_closest_claims (Turn.content turn) 3 "has_cons" in
  let result := run tape KialoAgent.response h in
  head (calls_since h result.2) = Some retrieval /\
  (neighbors ≠ [] ->
   (forall nb, nb ∈ neighbors ->
      exists opposing, cons k !! nb = Some opposing /\ opposing ≠ []) ->
   (exists neighbor opposing claim,
      neighbors !! (tape (rng_pos h) mod length neighbors) = Some neighbor /\
      cons k !! neighbor = Some opposing /\
      opposing !! (tape (S (rng_pos h)) mod length opposing) = Some claim /\
      result.1 = Returned claim /\
      calls_since h result.2 =
        [ retrieval; Call_random_choice neighbors;
          Call_log_info (chose_similar_claim neighbor);
          Call_random_choice opposing ]) /\
   weighted_results tape q KialoAgent.response h =
   flat_map (fun nb =>
     let opposing := default [] (cons k !! nb) in
     map (fun claim =>
            ((q * (1 # Pos.of_nat (length neighbors))
                * (1 # Pos.of_nat (length opposing)))%Q, Returned claim))
         opposing) neighbors).
Proof.
  intros Hlast Hk neighbors retrieval result. split.
  - subst result.
    destruct (decide (neighbors = [])) as [Hn|Hn].
    + rewrite (KialoAgent_run_no_neighbors tape h k turn Hlast Hk Hn).
      erewrite calls_since_app by (simpl; rewrite <- ?app_assoc; reflexivity).
      reflexivity.
    + destruct (choose_nonempty neighbors (tape (rng_pos h)) Hn) as (nb & _ & Hch).
      rewrite (KialoAgent_run_neighbor tape h k turn Hlast Hk nb Hch).
      cbv zeta. destruct (cons k !! nb) as [opposing|].
      * erewrite calls_since_app by (simpl; rewrite <- ?app_assoc; reflexivity).
        reflexivity.
      * erewrite calls_since_app by (simpl; rewrite <- ?app_assoc; reflexivity).
        reflexivity.
  - intros Hn Hcons. split.
    + destruct (choose_nonempty neighbors (tape (rng_pos h)) Hn) as (nb & Hnb & Hch).
      destruct (Hcons nb (list_elem_of_lookup_2 _ _ _ Hnb)) as (opposing & Hopp & Hone).
      destruct (choose_nonempty opposing (tape (S (rng_pos h))) Hone)
        as (claim & Hclaim & Hch2).
      exists nb, opposing, claim. subst result.
      rewrite (KialoAgent_run_neighbor tape h k turn Hlast Hk nb Hch).
      cbv zeta. rewrite Hopp, Hch2. repeat split; try assumption.
      apply calls_since_app. simpl. rewrite <- !app_assoc. reflexivity.
    + apply (KialoAgent_weighted_results tape q h k turn Hlast Hk Hn Hcons).
Qed.

(** Akiko on the corpus where A is opposed by C and D, and B by E: the
    draws pick B and then E; C and D get a quarter each, E a half. *)
Lemma KialoAgent_response_opposing_claim_witness :
  let h := fresh_heap (akiko corpus_debate) (user_says "A is true") in
  (run sample_tape KialoAgent.response h).1 = Returned "E" /\
  weighted_results sample_tape 1%Q KialoAgent.response h
  = [ ((1 * (1 # 2) * (1 # 2))%Q, Returned "C");
      ((1 * (1 # 2) * (1 # 2))%Q, Returned "D");
      ((1 * (1 # 2) * (1 # 1))%Q, Returned "E") ].
Proof.
  intros h.
  destruct (KialoAgent_response_opposing_claim sample_tape 1%Q h
              corpus_debate (Turn.mk "user" "A is true") eq_refl eq_refl)
    as [_ H].
  destruct H as [(nb & opposing & claim & Hnb & Hopp & Hclaim & Hres & _) Hdist].
  - discriminate.
  - intros nb Hnb. apply elem_of_cons in Hnb as [->|Hnb].
    + exists ["C"; "D"]. split; [reflexivity|discriminate].
    + apply list_elem_of_singleton in Hnb. subst nb.
      exists ["E"]. split; [reflexivity|discriminate].
  - split; [|exact Hdist].
    rewrite Hres. vm_compute in Hnb. injection Hnb as <-.
    vm_compute in Hopp. injection Hopp as <-.
    vm_compute in Hclaim. injection Hclaim as <-. reflexivity.
Defined.

(** C2 (the code departs from it).  On the corpus with the claims A and B
    where only A has an opposing child C, a user turn makes
    [ContextualKialoAgent.response] retrieve the candidate A and return A
    itself: the text of the candidate, not the text of its opposing child
    C, which [KialoAgent.response] returns on the same input.  The query
    is the last three turns' contents joined by single spaces, oldest
    first. *)
Theorem ContextualKialoAgent_returns_candidate :
  let d := [ Turn.mk "user" "one"; Turn.mk "bot" "two";
             Turn.mk "user" "three"; Turn.mk "bot" "four" ] in
  let h := fresh_heap (akiki corpus_AB) d in
  let result := run sample_tape ContextualKialoAgent.response h in
  calls_since h result.2 =
    [ Call_closest_claims "two three four" 3 "has_cons";
      Call_random_choice ["A"] ] /\
  result.1 = Returned "A" /\
  cons corpus_AB !! "A" = Some ["C"] /\
  (run sample_tape KialoAgent.response (fresh_heap (akiko corpus_AB) d)).1
  = Returned "C".
Proof. vm_compute. repeat split. Qed.

(** C3.  When both generation calls of [RAGAgent.response] succeed with a
    completion that has a first choice with text, the calls made are, in
    this order and no others: the generation call with the paraphrase
    instruction and the last turn; the retrieval of 3 claims with
    con-arguments for the stripped paraphrase; the generation call whose
    system message contains every retrieved claim and whose user message
    is the last turn.  The method returns the stripped text of the second
    completion. *)
Theorem RAGAgent_response_stages
    (tape : Tape) (h : Heap) (c : Client) (m : string) (k : Kialo)
    (completion1 completion2 : ChatCompletion.t) (s1 s2 : string) :
  client (self h) = Some c ->
  model (self h) = Some m ->
  kialo (self h) = Some k ->
  let last_turn := last_content (dialogue h) in
  create_impl c (llm_calls h) (RAGAgent.paraphrase_prompt last_turn) m
    = inr completion1 ->
  first_content completion1 = Some s1 ->
  let explicit_statement := strip s1 in
  let related_claims := closest_claims_impl k explicit_statement 3 "has_cons" in
  let grounded := RAGAgent.final_prompt (join nl related_claims) last_turn in
  create_impl c (S (llm_calls h)) grounded m = inr completion2 ->
  first_content completion2 = Some s2 ->
  let result := run tape RAGAgent.response h in
  calls_since h result.2 =
    [ Call_create (RAGAgent.paraphrase_prompt last_turn) m;
      Call_closest_claims explicit_statement 3 "has_cons";
      Call_create grounded m ] /\
  RAGAgent.paraphrase_prompt last_turn =
    [ Message.mk "system"
        "Paraphrase the following statement to make it more explicit and detailed:";
      Message.mk "user" last_turn ] /\
  (exists context,
     grounded = [Message.mk "system" context; Message.mk "user" last_turn] /\
     forall claim, claim ∈ related_claims -> occurs_in claim context) /\
  result.1 = Returned (strip s2).
Proof.
  intros Hc Hm Hk last_turn H1 Hs1 explicit_statement related_claims grounded
         H2 Hs2 result.
  subst result.
  rewrite (RAG_run_prefix tape h c m k Hc Hm Hk completion1 s1 H1 Hs1).
  fold last_turn explicit_statement related_claims grounded. rewrite H2.
  rewrite (run_content_strip _ _ s2) by exact Hs2.
  split; [apply RAG_calls|]. split; [reflexivity|]. split; [|reflexivity].
  eexists. split; [reflexivity|].
  intros claim Hclaim. do 2 apply occurs_in_append_r.
  apply occurs_in_join, Hclaim.
Qed.

(** Aragorn with a client that answers: paraphrase, retrieval of A,
    grounded answer. *)
Lemma RAGAgent_response_stages_witness :
  let h := heap_aragorn client_ok (user_says "A is true") in
  let result := run sample_tape RAGAgent.response h in
  result.1 = Returned "second answer" /\
  calls_since h result.2 =
    [ Call_create (RAGAgent.paraphrase_prompt "A is true") "gpt";
      Call_closest_claims "first answer" 3 "has_cons";
      Call_create (RAGAgent.final_prompt "A" "A is true") "gpt" ].
Proof.
  destruct (RAGAgent_response_stages sample_tape
              (heap_aragorn client_ok (user_says "A is true")) client_ok "gpt"
              corpus_AB (completion_of " first answer ")
              (completion_of " second answer ") " first answer "
              " second answer " eq_refl eq_refl eq_refl eq_refl eq_refl eq_refl
              eq_refl) as (Hcalls & _ & _ & Hres).
  split; [exact Hres|exact Hcalls].
Defined.

(** C4 (as the code has it).  A generation call of [RAGAgent.response]
    that raises ends the method with the very exception the client
    raised: whether the paraphrase call or the final call failed, the
    caller receives the same value, with no mark of the stage. *)
Theorem RAGAgent_failure_reaches_caller_unchanged
    (tape1 tape2 : Tape) (h1 h2 : Heap) (c1 c2 : Client) (m1 m2 : string)
    (k : Kialo) (completion1 : ChatCompletion.t) (s1 : string) (e : Exn) :
  client (self h1) = Some c1 -> model (self h1) = Some m1 ->
  create_impl c1 (llm_calls h1)
    (RAGAgent.paraphrase_prompt (last_content (dialogue h1))) m1 = inl e ->
  client (self h2) = Some c2 -> model (self h2) = Some m2 ->
  kialo (self h2) = Some k ->
  create_impl c2 (llm_calls h2)
    (RAGAgent.paraphrase_prompt (last_content (dialogue h2))) m2
    = inr completion1 ->
  first_content completion1 = Some s1 ->
  create_impl c2 (S (llm_calls h2))
    (RAGAgent.final_prompt
       (join nl (closest_claims_impl k (strip s1) 3 "has_cons"))
       (last_content (dialogue h2))) m2 = inl e ->
  (run tape1 RAGAgent.response h1).1 = Raised e /\
  (run tape2 RAGAgent.response h2).1 = Raised e.
Proof.
  intros Hc1 Hm1 Hfail1 Hc2 Hm2 Hk2 Hok Hs1 Hfail2. split.
  - by rewrite (RAG_run_paraphrase_fails tape1 h1 c1 m1 Hc1 Hm1 e Hfail1).
  - rewrite (RAG_run_prefix tape2 h2 c2 m2 k Hc2 Hm2 Hk2 completion1 s1 Hok Hs1).
    by rewrite Hfail2.
Qed.

(** A client that is down and a client that goes down after one call. *)
Lemma RAGAgent_failure_reaches_caller_unchanged_witness :
  (run sample_tape RAGAgent.response
     (heap_aragorn client_down (user_says "A is true"))).1
  = Raised (APIError "rate limit") /\
  (run sample_tape RAGAgent.response
     (heap_aragorn client_down_after_one (user_says "A is true"))).1
  = Raised (APIError "rate limit").
Proof.
  apply (RAGAgent_failure_reaches_caller_unchanged sample_tape sample_tape
           (heap_aragorn client_down (user_says "A is true"))
           (heap_aragorn client_down_after_one (user_says "A is true"))
           client_down client_down_after_one "gpt" "gpt" corpus_AB
           (completion_of " first answer ") " first answer "
           (APIError "rate limit")); reflexivity.
Defined.

(** C4, the counterexample: with a client that is down the paraphrase
    call fails, with a client that goes down after one call the final
    call fails; the two runs made one and two generation calls, and the
    caller receives the same exception from both. *)
Lemma RAGAgent_failure_stage_not_identified :
  let h1 := heap_aragorn client_down (user_says "A is true") in
  let h2 := heap_aragorn client_down_after_one (user_says "A is true") in
  let result1 := run sample_tape RAGAgent.response h1 in
  let result2 := run sample_tape RAGAgent.response h2 in
  length (generation_calls (calls_since h1 result1.2)) = 1 /\
  length (generation_calls (calls_since h2 result2.2)) = 2 /\
  result1.1 = Raised (APIError "rate limit") /\
  result2.1 = result1.1.
Proof. vm_compute. repeat split. Qed.

(** C5.  Whenever the retrieval of [ContextualKialoAgent.response]
    returns no candidate, for a non-empty dialogue as for any other, the
    method returns the fixed apology and raises nothing; the retrieval
    is the only call it made. *)
Theorem ContextualKialoAgent_fallback
    (tape : Tape) (h : Heap) (k : Kialo) :
  dialogue h ≠ [] ->
  kialo (self h) = Some k ->
  let weighted_query := join " " (last_n 3 (map Turn.content (dialogue h))) in
  closest_claims_impl k weighted_query 3 "has_cons" = [] ->
  let result := run tape ContextualKialoAgent.response h in
  result.1 = Returned "I'm sorry, I couldn't find a relevant response." /\
  calls_since h result.2 = [Call_closest_claims weighted_query 3 "has_cons"].
Proof.
  intros _ Hk weighted_query Hr result. subst result.
  rewrite (Contextual_run_no_results tape h k Hk Hr).
  split; [reflexivity|]. apply calls_since_app. reflexivity.
Qed.

(** Akiki on the corpus without claims. *)
Lemma ContextualKialoAgent_fallback_witness :
  (run sample_tape ContextualKialoAgent.response
     (fresh_heap (akiki corpus_empty) (user_says "A is true"))).1
  = Returned "I'm sorry, I couldn't find a relevant response.".
Proof.
  apply (ContextualKialoAgent_fallback sample_tape
           (fresh_heap (akiki corpus_empty) (user_says "A is true"))
           corpus_empty); [discriminate|reflexivity|reflexivity].
Defined.

(** C6.  When both generation calls of [AwsomAgent.response] succeed
    with a completion that has a first choice with text, the method makes
    exactly two calls, both generation calls and no retrieval: the first
    with the analysis instruction and the last turn, the second with the
    response instruction, the stripped analysis and the last turn.  It
    returns the text of the second completion with the whitespace removed
    from its two ends, and nothing else: the analysis of the first call
    goes into the second prompt and nowhere else, and the dialogue is
    left as it was. *)
Theorem AwsomAgent_response_public_only
    (tape : Tape) (h : Heap) (c : Client) (m : string)
    (completion1 completion2 : ChatCompletion.t) (s1 s2 : string) :
  client (self h) = Some c ->
  model (self h) = Some m ->
  let last_turn := last_content (dialogue h) in
  let analysis :=
    [ Message.mk "system"
        "You are a helpful assistant that analyzes dialogue to infer intent and emotional tone.";
      Message.mk "user"
        ("Analyze the following human statement and summarize their intent, tone, and possible motivations: "
         +:+ last_turn) ] in
  create_impl c (llm_calls h) analysis m = inr completion1 ->
  first_content completion1 = Some s1 ->
  let private_thought := strip s1 in
  let public :=
    [ Message.mk "system"
        "You are an assistant that responds thoughtfully to human dialogue based on analyzed context.";
      Message.mk "user"
        ("Using the following analysis: " +:+ private_thought +:+
         ", generate a helpful and contextually appropriate response to the statement: "
         +:+ last_turn) ] in
  create_impl c (S (llm_calls h)) public m = inr completion2 ->
  first_content completion2 = Some s2 ->
  let result := run tape AwsomAgent.response h in
  result.1 = Returned (strip s2) /\
  occurs_in (strip s2) s2 /\
  calls_since h result.2 = [Call_create analysis m; Call_create public m] /\
  retrieval_calls (calls_since h result.2) = [] /\
  dialogue result.2 = dialogue h.
Proof.
  intros Hc Hm last_turn analysis H1 Hs1 private_thought public H2 Hs2 result.
  subst result.
  assert (H1' : create_impl c (llm_calls h)
                  (AwsomAgent.thought_prompt last_turn) m = inr completion1)
    by exact H1.
  assert (H2' : create_impl c (S (llm_calls h))
                  (AwsomAgent.response_prompt private_thought last_turn) m
                = inr completion2) by exact H2.
  rewrite (Awsom_run_prefix tape h c m Hc Hm completion1 s1 H1' Hs1).
  fold last_turn private_thought. rewrite H2'.
  rewrite run_mbind, (run_content_strip _ _ s2) by exact Hs2.
  simpl run. cbv [fst snd]. split; [reflexivity|].
  split; [apply strip_occurs_in|].
  erewrite !calls_since_app by (simpl; rewrite <- ?app_assoc; reflexivity).
  repeat split.
Qed.

(** Awsom with a client whose answers are padded with whitespace of one,
    two and three bytes. *)
Lemma AwsomAgent_response_public_only_witness :
  let h := heap_awsom client_padded (user_says "A is true") in
  let result := run sample_tape AwsomAgent.response h in
  result.1 = Returned "second answer" /\
  calls_since h result.2 =
    [ Call_create
        [ Message.mk "system"
            "You are a helpful assistant that analyzes dialogue to infer intent and emotional tone.";
          Message.mk "user"
            "Analyze the following human statement and summarize their intent, tone, and possible motivations: A is true" ]
        "gpt";
      Call_create
        [ Message.mk "system"
            "You are an assistant that responds thoughtfully to human dialogue based on analyzed context.";
          Message.mk "user"
            "Using the following analysis: first answer, generate a helpful and contextually appropriate response to the statement: A is true" ]
        "gpt" ].
Proof.
  intros h.
  destruct (AwsomAgent_response_public_only sample_tape h client_padded "gpt"
              (completion_of (no_break_space +:+ " first answer" +:+ ideographic_space))
              (completion_of (em_space +:+ "second answer" +:+ next_line +:+ nl))
              (no_break_space +:+ " first answer" +:+ ideographic_space)
              (em_space +:+ "second answer" +:+ next_line +:+ nl)
              eq_refl eq_refl eq_refl eq_refl eq_refl eq_refl)
    as (Hres & _ & Hcalls & _).
  split; [exact Hres|exact Hcalls].
Defined.

(** C7.  A generation call that raises ends [RAGAgent.response] and
    [AwsomAgent.response] with that exception and without a text.  The
    failed call is the last call of the run and was made once: nothing
    is retried and nothing follows it. *)
Theorem generation_failure_propagates
    (tape : Tape) (h : Heap) (c : Client) (m : string) (e : Exn) :
  client (self h) = Some c ->
  model (self h) = Some m ->
  let last_turn := last_content (dialogue h) in
  let rag := run tape RAGAgent.response h in
  let awsom := run tape AwsomAgent.response h in
  (create_impl c (llm_calls h) (RAGAgent.paraphrase_prompt last_turn) m = inl e ->
   rag.1 = Raised e /\
   calls_since h rag.2 = [Call_create (RAGAgent.paraphrase_prompt last_turn) m]) /\
  (forall k completion1 s1,
     kialo (self h) = Some k ->
     create_impl c (llm_calls h) (RAGAgent.paraphrase_prompt last_turn) m
       = inr completion1 ->
     first_content completion1 = Some s1 ->
     let grounded :=
       RAGAgent.final_prompt
         (join nl (closest_claims_impl k (strip s1) 3 "has_cons")) last_turn in
     create_impl c (S (llm_calls h)) grounded m = inl e ->
     rag.1 = Raised e /\
     calls_since h rag.2 =
       [ Call_create (RAGAgent.paraphrase_prompt last_turn) m;
         Call_closest_claims (strip s1) 3 "has_cons";
         Call_create grounded m ]) /\
  (create_impl c (llm_calls h) (AwsomAgent.thought_prompt last_turn) m = inl e ->
   awsom.1 = Raised e /\
   calls_since h awsom.2 = [Call_create (AwsomAgent.thought_prompt last_turn) m]) /\
  (forall completion1 s1,
     create_impl c (llm_calls h) (AwsomAgent.thought_prompt last_turn) m
       = inr completion1 ->
     first_content completion1 = Some s1 ->
     let respond := AwsomAgent.response_prompt (strip s1) last_turn in
     create_impl c (S (llm_calls h)) respond m = inl e ->
     awsom.1 = Raised e /\
     calls_since h awsom.2 =
       [ Call_create (AwsomAgent.thought_prompt last_turn) m;
         Call_create respond m ]).
Proof.
  intros Hc Hm last_turn rag awsom. subst rag awsom.
  split; [|split; [|split]].
  - intros H. rewrite (RAG_run_paraphrase_fails tape h c m Hc Hm e H).
    split; [reflexivity|]. apply calls_since_app. reflexivity.
  - intros k completion1 s1 Hk H1 Hs1 grounded H2.
    rewrite (RAG_run_prefix tape h c m k Hc Hm Hk completion1 s1 H1 Hs1).
    fold last_turn grounded. rewrite H2. split; [reflexivity|apply RAG_calls].
  - intros H. rewrite (Awsom_run_analysis_fails tape h c m Hc Hm e H).
    split; [reflexivity|]. apply calls_since_app. reflexivity.
  - intros completion1 s1 H1 Hs1 respond H2.
    rewrite (Awsom_run_prefix tape h c m Hc Hm completion1 s1 H1 Hs1).
    fold last_turn respond. rewrite H2. split; [reflexivity|apply Awsom_calls].
Qed.

(** Each of the four generation calls failing in turn. *)
Lemma generation_failure_propagates_witness :
  let h1 := heap_aragorn client_down (user_says "A is true") in
  let h2 := heap_aragorn client_down_after_one (user_says "A is true") in
  ((run sample_tape RAGAgent.response h1).1 = Raised (APIError "rate limit") /\
   (run sample_tape AwsomAgent.response h1).1 = Raised (APIError "rate limit")) /\
  ((run sample_tape RAGAgent.response h2).1 = Raised (APIError "rate limit") /\
   (run sample_tape AwsomAgent.response h2).1 = Raised (APIError "rate limit")).
Proof.
  intros h1 h2. split.
  - destruct (generation_failure_propagates sample_tape h1 client_down "gpt"
                (APIError "rate limit") eq_refl eq_refl) as (Hr & _ & Ha & _).
    split; [apply Hr|apply Ha]; reflexivity.
  - destruct (generation_failure_propagates sample_tape h2 client_down_after_one
                "gpt" (APIError "rate limit") eq_refl eq_refl)
      as (_ & Hr & _ & Ha).
    split.
    + apply (Hr corpus_AB (completion_of " first answer ") " first answer ");
        reflexivity.
    + apply (Ha (completion_of " first answer ") " first answer "); reflexivity.
Defined.

Lemma choose_raises seq r e : choose seq r = inl e -> e = IndexError.
Proof. unfold choose. destruct (seq !! _); congruence. Qed.

(** C8.  For a non-empty dialogue, when the retrieval of
    [KialoAgent.response] returns the empty list the method ends with the
    [AssertionError] of its [assert], having made no other call and
    returned nothing; when the retrieval returns a non-empty list the
    method never ends with an [AssertionError]. *)
Theorem KialoAgent_response_assertion
    (tape : Tape) (h : Heap) (k : Kialo) (turn : Turn.t) :
  last (dialogue h) = Some turn ->
  kialo (self h) = Some k ->
  let neighbors := closest_claims_impl k (Turn.content turn) 3 "has_cons" in
  let result := run tape KialoAgent.response h in
  (neighbors = [] ->
   result.1 = Raised (AssertionError
                        "No claims to choose from; is Kialo data structure empty?") /\
   calls_since h result.2 =
     [Call_closest_claims (Turn.content turn) 3 "has_cons"]) /\
  (neighbors ≠ [] -> forall msg, result.1 ≠ Raised (AssertionError msg)).
Proof.
  intros Hlast Hk neighbors result. subst result. split.
  - intros Hn. rewrite (KialoAgent_run_no_neighbors tape h k turn Hlast Hk Hn).
    split; [reflexivity|]. apply calls_since_app. reflexivity.
  - intros Hn msg.
    destruct (choose_nonempty neighbors (tape (rng_pos h)) Hn) as (nb & _ & Hch).
    rewrite (KialoAgent_run_neighbor tape h k turn Hlast Hk nb Hch). cbv zeta.
    destruct (cons k !! nb) as [opposing|]; [|discriminate].
    destruct (choose opposing _) as [e|claim] eqn:Hch2; [|discriminate].
    apply choose_raises in Hch2. subst e. discriminate.
Qed.

(** Akiko on the corpus without claims, and on the corpus with A, B and
    C. *)
Lemma KialoAgent_response_assertion_witness :
  (run sample_tape KialoAgent.response
     (fresh_heap (akiko corpus_empty) (user_says "A is true"))).1
  = Raised (AssertionError
              "No claims to choose from; is Kialo data structure empty?") /\
  (run sample_tape KialoAgent.response heap_akiko).1
  ≠ Raised (AssertionError
              "No claims to choose from; is Kialo data structure empty?").
Proof.
  split.
  - apply (KialoAgent_response_assertion sample_tape
             (fresh_heap (akiko corpus_empty) (user_says "A is true"))
             corpus_empty (Turn.mk "user" "A is true") eq_refl eq_refl).
    reflexivity.
  - apply (KialoAgent_response_assertion sample_tape heap_akiko corpus_AB
             (Turn.mk "user" "A is true") eq_refl eq_refl).
    discriminate.
Defined.

Lemma responses_read_only : Forall read_only responses.
Proof.
  unfold responses.
  constructor; [apply KialoAgent_response_read_only|].
  constructor; [apply ContextualKialoAgent_response_read_only|].
  constructor; [apply RAGAgent_response_read_only|].
  constructor; [apply AwsomAgent_response_read_only|].
  constructor.
Qed.

(** C9.  Each of the four [response] methods leaves the agent object
    (name, corpus, model, client) and the dialogue exactly as it found
    them, from every heap and with every random source.  A call leaves
    nothing behind that a later call could see: any of the four methods,
    called after it, ends as it would have ended on the untouched agent
    and dialogue, given the same answers of the collaborators. *)
Theorem response_read_only_stateless (tape : Tape) (h : Heap) :
  Forall (fun p =>
    let h' := (run tape p h).2 in
    self h' = self h /\ dialogue h' = dialogue h /\
    Forall (fun p' =>
      (run tape p' h').1 = (run tape p' (collaborators_as h' h)).1) responses)
    responses.
Proof.
  apply Forall_forall. intros p Hin.
  pose proof (proj1 (Forall_forall _ _) responses_read_only p Hin) as Hp.
  cbv zeta.
  pose proof (run_read_only tape p h Hp) as Hself.
  pose proof (run_dialogue tape p h) as Hd.
  split; [exact Hself|]. split; [exact Hd|].
  apply Forall_forall. intros p' _.
  apply run_same_but_trace. repeat split; assumption.
Qed.

(** C10.  On an empty transcript [RAGAgent.response] and
    [AwsomAgent.response] take the empty string for the last turn and go
    on as for any other transcript.  Their first generation call is
    issued, whatever the client answers, with the instruction and the
    empty string where the turn goes.  When the client answers both
    calls, every call of the non-empty case is made: for RAG the
    retrieval for the stripped paraphrase and the second generation call
    with the retrieved claims and the empty string as the user message;
    for Awsom the second generation call with the stripped analysis and
    the empty string after the instruction.  The second answer is
    returned. *)
Theorem empty_transcript_uses_empty_string
    (tape : Tape) (h : Heap) (c : Client) (m : string) :
  dialogue h = [] ->
  client (self h) = Some c ->
  model (self h) = Some m ->
  let rag := run tape RAGAgent.response h in
  let awsom := run tape AwsomAgent.response h in
  let paraphrase :=
    [ Message.mk "system"
        "Paraphrase the following statement to make it more explicit and detailed:";
      Message.mk "user" "" ] in
  let analysis :=
    [ Message.mk "system"
        "You are a helpful assistant that analyzes dialogue to infer intent and emotional tone.";
      Message.mk "user"
        "Analyze the following human statement and summarize their intent, tone, and possible motivations: " ] in
  head (calls_since h rag.2) = Some (Call_create paraphrase m) /\
  head (calls_since h awsom.2) = Some (Call_create analysis m) /\
  (forall k completion1 completion2 s1 s2,
     kialo (self h) = Some k ->
     create_impl c (llm_calls h) paraphrase m = inr completion1 ->
     first_content completion1 = Some s1 ->
     let related_claims := closest_claims_impl k (strip s1) 3 "has_cons" in
     let grounded :=
       [ Message.mk "system"
           ("Generate a response based on the user's statement and the following related claims:"
            +:+ nl +:+ join nl related_claims);
         Message.mk "user" "" ] in
     create_impl c (S (llm_calls h)) grounded m = inr completion2 ->
     first_content completion2 = Some s2 ->
     rag.1 = Returned (strip s2) /\
     calls_since h rag.2 =
       [ Call_create paraphrase m;
         Call_closest_claims (strip s1) 3 "has_cons";
         Call_create grounded m ]) /\
  (forall completion1 completion2 s1 s2,
     create_impl c (llm_calls h) analysis m = inr completion1 ->
     first_content completion1 = Some s1 ->
     let respond :=
       [ Message.mk "system"
           "You are an assistant that responds thoughtfully to human dialogue based on analyzed context.";
         Message.mk "user"
           ("Using the following analysis: " +:+ strip s1 +:+
            ", generate a helpful and contextually appropriate response to the statement: ") ] in
     create_impl c (S (llm_calls h)) respond m = inr completion2 ->
     first_content completion2 = Some s2 ->
     awsom.1 = Returned (strip s2) /\
     calls_since h awsom.2 = [Call_create analysis m; Call_create respond m]).
Proof.
  intros Hd Hc Hm rag awsom paraphrase analysis.
  assert (Hlast : last_content (dialogue h) = "") by (rewrite Hd; reflexivity).
  split; [|split; [|split]].
  - subst rag. unfold RAGAgent.response.
    rewrite run_mbind. simpl (run tape (call get_dialogue) h). cbv beta iota.
    rewrite run_mbind, run_last_turn_content, Hlast.
    simpl. rewrite Hc, Hm.
    destruct (create_impl c (llm_calls h) _ m) as [e|completion1].
    + erewrite calls_since_app by reflexivity. reflexivity.
    + match goal with
      | |- context [run tape ?p ?h1] => destruct (run_trace tape p h1) as [l Hl]
      end.
      erewrite calls_since_app
        by (rewrite Hl; simpl; rewrite <- ?app_assoc; reflexivity).
      reflexivity.
  - subst awsom. unfold AwsomAgent.response.
    rewrite run_mbind. simpl (run tape (call get_dialogue) h). cbv beta iota.
    rewrite run_mbind, run_last_turn_content, Hlast.
    simpl. rewrite Hc, Hm.
    destruct (create_impl c (llm_calls h) _ m) as [e|completion1].
    + erewrite calls_since_app by reflexivity. reflexivity.
    + match goal with
      | |- context [run tape ?p ?h1] => destruct (run_trace tape p h1) as [l Hl]
      end.
      erewrite calls_since_app
        by (rewrite Hl; simpl; rewrite <- ?app_assoc; reflexivity).
      reflexivity.
  - intros k completion1 completion2 s1 s2 Hk H1 Hs1 related_claims grounded
           H2 Hs2.
    subst rag.
    pose proof (RAG_run_prefix tape h c m k Hc Hm Hk completion1 s1) as Hrun.
    pose proof (RAG_calls h m k s1) as Hcalls.
    rewrite Hlast in Hrun, Hcalls.
    assert (H2' : create_impl c (S (llm_calls h))
                    (RAGAgent.final_prompt
                       (join nl (closest_claims_impl k (strip s1) 3 "has_cons"))
                       "") m = inr completion2) by exact H2.
    rewrite (Hrun H1 Hs1), H2', (run_content_strip _ _ s2) by exact Hs2.
    split; [reflexivity|exact Hcalls].
  - intros completion1 completion2 s1 s2 H1 Hs1 respond H2 Hs2.
    subst awsom.
    pose proof (Awsom_run_prefix tape h c m Hc Hm completion1 s1) as Hrun.
    pose proof (Awsom_calls h m s1) as Hcalls.
    rewrite Hlast in Hrun, Hcalls.
    assert (H2' : create_impl c (S (llm_calls h))
                    (AwsomAgent.response_prompt (strip s1) "") m
                  = inr completion2) by exact H2.
    rewrite (Hrun H1 Hs1), H2', run_mbind, (run_content_strip _ _ s2)
      by exact Hs2.
    split; [reflexivity|exact Hcalls].
Qed.

(** Both agents on the empty dialogue, with a client that answers. *)
Lemma empty_transcript_uses_empty_string_witness :
  let h := heap_aragorn client_ok [] in
  let rag := run sample_tape RAGAgent.response h in
  let awsom := run sample_tape AwsomAgent.response h in
  (rag.1 = Returned "second answer" /\
   calls_since h rag.2 =
     [ Call_create
         [ Message.mk "system"
             "Paraphrase the following statement to make it more explicit and detailed:";
           Message.mk "user" "" ]
         "gpt";
       Call_closest_claims "first answer" 3 "has_cons";
       Call_create
         [ Message.mk "system"
             ("Generate a response based on the user's statement and the following related claims:"
              +:+ nl +:+ "A");
           Message.mk "user" "" ]
         "gpt" ]) /\
  (awsom.1 = Returned "second answer" /\
   calls_since h awsom.2 =
     [ Call_create
         [ Message.mk "system"
             "You are a helpful assistant that analyzes dialogue to infer intent and emotional tone.";
           Message.mk "user"
             "Analyze the following human statement and summarize their intent, tone, and possible motivations: " ]
         "gpt";
       Call_create
         [ Message.mk "system"
             "You are an assistant that responds thoughtfully to human dialogue based on analyzed context.";
           Message.mk "user"
             "Using the following analysis: first answer, generate a helpful and contextually appropriate response to the statement: " ]
         "gpt" ]).
Proof.
  intros h.
  destruct (empty_transcript_uses_empty_string sample_tape h client_ok "gpt"
              eq_refl eq_refl eq_refl) as (_ & _ & Hr & Ha).
  split.
  - apply (Hr corpus_AB (completion_of " first answer ")
              (completion_of " second answer ") " first answer "
              " second answer "); reflexivity.
  - apply (Ha (completion_of " first answer ") (completion_of " second answer ")
              " first answer " " second answer "); reflexivity.
Defined.

(** ** Budgets and independence *)

Lemma handle_call {X} tape (e : Eff X) h :
  trace (handle tape e h).2 = trace h ++ option_list (call_of e).
Proof. destruct e; simpl; try reflexivity; by rewrite app_nil_r. Qed.

Lemma at_most_trace {R} (P : Call -> bool) n tape (p : Prog R) h :
  at_most (counts P) n p ->
  exists l, trace (run tape p h).2 = trace h ++ l /\ length (List.filter P l) <= n.
Proof.
  intros Hp. revert h. induction Hp as [n r|n e|n X e k He Hk IH]; intros h; simpl;
    try (exists []; split; [by rewrite app_nil_r|simpl; lia]).
  pose proof (handle_call tape e h) as Hc.
  destruct (handle tape e h) as [[ex|x] h']; simpl in *.
  - exists (option_list (call_of e)). split; [exact Hc|].
    unfold counts in He. destruct (call_of e) as [c|]; simpl; [|lia].
    destruct (P c); simpl; lia.
  - destruct (IH x h') as (l & Hl & Hlen).
    exists (option_list (call_of e) ++ l). split.
    + by rewrite Hl, Hc, app_assoc.
    + rewrite List.filter_app, length_app.
      unfold counts in *. destruct (call_of e) as [c|]; simpl in *; [|lia].
      destruct (P c); simpl in *; lia.
Qed.

Lemma at_most_calls {R} (P : Call -> bool) n tape (p : Prog R) h :
  at_most (counts P) n p ->
  length (List.filter P (calls_since h (run tape p h).2)) <= n.
Proof.
  intros Hp. destruct (at_most_trace P n tape p h Hp) as (l & Hl & Hlen).
  by rewrite (calls_since_app _ _ l Hl).
Qed.

Lemma filter_length_0 {A} (P : A -> bool) l :
  length (List.filter P l) <= 0 -> List.filter P l = [].
Proof. destruct (List.filter P l); simpl; [done|lia]. Qed.

Lemma at_most_mono {R} w n m (p : Prog R) :
  at_most w n p -> n <= m -> at_most w m p.
Proof.
  intros Hp. revert m. induction Hp as [n r|n e|n X e k He Hk IH]; intros m Hm;
    constructor; [lia|]. intros x. apply IH. lia.
Qed.

Lemma at_most_bind {A B} w n1 n2 (p : Prog A) (f : A -> Prog B) :
  at_most w n1 p -> (forall a, at_most w n2 (f a)) ->
  at_most w (n1 + n2) (bind p f).
Proof.
  intros Hp Hf. induction Hp as [n r|n e|n X e k He Hk IH]; simpl.
  - eapply at_most_mono; [apply Hf|lia].
  - constructor.
  - constructor; [lia|]. intros x.
    eapply at_most_mono; [apply IH|lia].
Qed.

Ltac weigh :=
  cbv [counts call_of reads_dialogue is_generation is_retrieval is_random any_call].

Ltac at_most_steps :=
  repeat first
    [ apply at_most_Ret
    | apply at_most_Throw
    | apply at_most_Vis; [weigh; lia|intros ?; weigh; simpl]
    | case_bool_decide
    | case_match
    | progress simpl ].


(** A program that never calls the generation service leaves its call
    counter alone. *)
Lemma at_most_llm_calls {R} tape (p : Prog R) h :
  at_most (counts is_generation) 0 p -> llm_calls (run tape p h).2 = llm_calls h.
Proof.
  intros Hp. remember 0 as n eqn:Hn. revert h.
  induction Hp as [n r|n e|n X e k He Hk IH]; intros h; simpl; try reflexivity.
  subst n. assert (Hw : counts is_generation X e = 0) by lia.
  assert (Hh : llm_calls (handle tape e h).2 = llm_calls h).
  { destruct e; try reflexivity. discriminate Hw. }
  destruct (handle tape e h) as [[ex|x] h']; simpl in *; [exact Hh|].
  rewrite IH; [exact Hh|]. rewrite Hw. reflexivity.
Qed.

(** A program that never uses the random source runs the same on every
    tape. *)
Lemma at_most_random_tape {R} tape1 tape2 (p : Prog R) h :
  at_most (counts is_random) 0 p -> run tape1 p h = run tape2 p h.
Proof.
  intros Hp. remember 0 as n eqn:Hn. revert h.
  induction Hp as [n r|n e|n X e k He Hk IH]; intros h; simpl; try reflexivity.
  subst n. assert (Hw : counts is_random X e = 0) by lia.
  assert (Hh : handle tape1 e h = handle tape2 e h).
  { destruct e; try reflexivity; discriminate Hw. }
  rewrite Hh. destruct (handle tape2 e h) as [[ex|x] h']; [reflexivity|].
  apply IH. rewrite Hw. reflexivity.
Qed.

(** A program that does not read the dialogue runs the same whatever the
    dialogue is. *)
Lemma handle_same_but_dialogue {X} tape (e : Eff X) h1 h2 :
  reads_dialogue X e = 0 ->
  same_but_dialogue h1 h2 ->
  (handle tape e h1).1 = (handle tape e h2).1 /\
  same_but_dialogue (handle tape e h1).2 (handle tape e h2).2.
Proof.
  intros Hw (Hs & Hr & Hl & Ht). unfold same_but_dialogue.
  destruct e; try discriminate Hw; simpl; rewrite ?Hs, ?Hr, ?Hl, ?Ht; auto.
Qed.

Lemma at_most_dialogue {R} tape (p : Prog R) h1 h2 :
  at_most reads_dialogue 0 p ->
  same_but_dialogue h1 h2 ->
  (run tape p h1).1 = (run tape p h2).1 /\
  same_but_dialogue (run tape p h1).2 (run tape p h2).2.
Proof.
  intros Hp. remember 0 as n eqn:Hn. revert h1 h2.
  induction Hp as [n r|n e|n X e k He Hk IH]; intros h1 h2 H; simpl; auto.
  subst n. assert (Hw : reads_dialogue X e = 0) by lia.
  destruct (handle_same_but_dialogue tape e h1 h2 Hw H) as [Ha Hh].
  destruct (handle tape e h1) as [[ex1|x1] h1'], (handle tape e h2) as [[ex2|x2] h2'];
    simpl in *; try discriminate.
  - injection Ha as ->. auto.
  - injection Ha as ->. apply IH; [by rewrite Hw|exact Hh].
Qed.

Lemma same_but_dialogue_calls h1 h2 h1' h2' :
  same_but_dialogue h1 h2 -> same_but_dialogue h1' h2' ->
  calls_since h1 h1' = calls_since h2 h2'.
Proof.
  intros (_ & _ & _ & Ht) (_ & _ & _ & Ht'). unfold calls_since.
  by rewrite Ht, Ht'.
Qed.

Lemma last_n_map {A B} (f : A -> B) n (l : list A) :
  last_n n (map f l) = map f (last_n n l).
Proof. unfold last_n. rewrite length_map. by rewrite <- fmap_drop. Qed.

Ltac unfold_response :=
  unfold KialoAgent.response, ContextualKialoAgent.response, RAGAgent.response,
    AwsomAgent.response, last_turn_content, content_strip, self_kialo,
    self_client, self_model, call, item, item_last, getitem, assert_.

Lemma KialoAgent_run_opening tape h k :
  dialogue h = [] ->
  kialo (self h) = Some k ->
  run tape KialoAgent.response h =
  (match random_chain_impl k (tape (rng_pos h)) with
   | claim :: _ => Returned claim
   | [] => Raised IndexError
   end,
   record Call_random_chain (next_draw h)).
Proof.
  intros Hd Hk. unfold KialoAgent.response.
  simpl. rewrite Hd. simpl. rewrite Hk. simpl. unfold item.
  destruct (random_chain_impl k _); reflexivity.
Qed.

(** ** Further properties of the methods *)

(** X1.  On an empty dialogue [KialoAgent.response] asks the corpus for
    one random chain and returns its first claim; an empty chain ends in
    [IndexError].  That is the only call: no similarity retrieval, no
    [random.choice], no log line. *)
Theorem KialoAgent_opening_move (tape : Tape) (h : Heap) (k : Kialo) :
  dialogue h = [] ->
  kialo (self h) = Some k ->
  let chain := random_chain_impl k (tape (rng_pos h)) in
  let result := run tape KialoAgent.response h in
  result.1 = match chain with
             | claim :: _ => Returned claim
             | [] => Raised IndexError
             end /\
  calls_since h result.2 = [Call_random_chain].
Proof.
  intros Hd Hk chain result. subst result.
  rewrite (KialoAgent_run_opening tape h k Hd Hk).
  split; [reflexivity|apply calls_since_app; reflexivity].
Qed.

(** Akiko opens on the corpus with A, B and C; on the corpus without
    claims the opening fails. *)
Lemma KialoAgent_opening_move_witness :
  (run sample_tape KialoAgent.response (fresh_heap (akiko corpus_AB) [])).1
  = Returned "B" /\
  (run sample_tape KialoAgent.response (fresh_heap (akiko corpus_empty) [])).1
  = Raised IndexError.
Proof.
  split.
  - apply (KialoAgent_opening_move sample_tape (fresh_heap (akiko corpus_AB) [])
             corpus_AB eq_refl eq_refl).
  - apply (KialoAgent_opening_move sample_tape (fresh_heap (akiko corpus_empty) [])
             corpus_empty eq_refl eq_refl).
Defined.

(** X2.  On a non-empty dialogue [KialoAgent.response] returns a text
    exactly when the first draw selects a retrieved candidate that has an
    entry in [cons] and the second draw selects an element of that entry:
    whatever the corpus holds, a returned text is one of the
    con-arguments listed for a retrieved candidate. *)
Theorem KialoAgent_returns_only_opposing_claims
    (tape : Tape) (h : Heap) (k : Kialo) (turn : Turn.t) (claim : string) :
  last (dialogue h) = Some turn ->
  kialo (self h) = Some k ->
  let neighbors := closest_claims_impl k (Turn.content turn) 3 "has_cons" in
  (run tape KialoAgent.response h).1 = Returned claim <->
  exists neighbor opposing,
    neighbors !! (tape (rng_pos h) mod length neighbors) = Some neighbor /\
    cons k !! neighbor = Some opposing /\
    opposing !! (tape (S (rng_pos h)) mod length opposing) = Some claim.
Proof.
  intros Hlast Hk neighbors. split.
  - destruct (decide (neighbors = [])) as [Hn|Hn].
    { rewrite (KialoAgent_run_no_neighbors tape h k turn Hlast Hk Hn).
      discriminate. }
    destruct (choose_nonempty neighbors (tape (rng_pos h)) Hn) as (nb & Hnb & Hch).
    rewrite (KialoAgent_run_neighbor tape h k turn Hlast Hk nb Hch). cbv zeta.
    destruct (cons k !! nb) as [opposing|] eqn:Hopp; [|discriminate].
    unfold choose. simpl.
    destruct (opposing !! _) as [c|] eqn:Hc; [|discriminate].
    intros [= <-]. exists nb, opposing. auto.
  - intros (nb & opposing & Hnb & Hopp & Hc).
    assert (Hch : choose neighbors (tape (rng_pos h)) = inr nb).
    { unfold choose. fold neighbors in Hnb. by rewrite Hnb. }
    rewrite (KialoAgent_run_neighbor tape h k turn Hlast Hk nb Hch). cbv zeta.
    rewrite Hopp. unfold choose. by rewrite Hc.
Qed.

(** On the corpus where A is opposed by C and D, and B by E. *)
Lemma KialoAgent_returns_only_opposing_claims_witness :
  (run sample_tape KialoAgent.response
     (fresh_heap (akiko corpus_debate) (user_says "A is true"))).1
  = Returned "E".
Proof.
  apply (KialoAgent_returns_only_opposing_claims sample_tape
           (fresh_heap (akiko corpus_debate) (user_says "A is true"))
           corpus_debate (Turn.mk "user" "A is true") "E" eq_refl eq_refl).
  exists "B", ["E"]. repeat split.
Defined.

(** X3.  When the candidate chosen by [KialoAgent.response] has an empty
    list of con-arguments, the method raises [IndexError] from its second
    [random.choice], after the log line: nothing is returned in its
    place. *)
Theorem KialoAgent_candidate_without_cons
    (tape : Tape) (h : Heap) (k : Kialo) (turn : Turn.t) (neighbor : string) :
  last (dialogue h) = Some turn ->
  kialo (self h) = Some k ->
  let neighbors := closest_claims_impl k (Turn.content turn) 3 "has_cons" in
  neighbors !! (tape (rng_pos h) mod length neighbors) = Some neighbor ->
  cons k !! neighbor = Some [] ->
  let result := run tape KialoAgent.response h in
  result.1 = Raised IndexError /\
  calls_since h result.2 =
    [ Call_closest_claims (Turn.content turn) 3 "has_cons";
      Call_random_choice neighbors;
      Call_log_info (chose_similar_claim neighbor);
      Call_random_choice [] ].
Proof.
  intros Hlast Hk neighbors Hnb Hopp result. subst result.
  assert (Hch : choose neighbors (tape (rng_pos h)) = inr neighbor).
  { unfold choose. by rewrite Hnb. }
  rewrite (KialoAgent_run_neighbor tape h k turn Hlast Hk neighbor Hch). cbv zeta.
  rewrite Hopp. split; [reflexivity|].
  apply calls_since_app. simpl. rewrite <- !app_assoc. reflexivity.
Qed.

(** Akiko on a corpus that offers the unopposed claim B. *)
Lemma KialoAgent_candidate_without_cons_witness :
  (run sample_tape KialoAgent.response
     (fresh_heap (akiko corpus_unopposed) (user_says "B is true"))).1
  = Raised IndexError.
Proof.
  apply (KialoAgent_candidate_without_cons sample_tape
           (fresh_heap (akiko corpus_unopposed) (user_says "B is true"))
           corpus_unopposed (Turn.mk "user" "B is true") "B");
    reflexivity.
Defined.

Lemma KialoAgent_budget :
  at_most (counts any_call) 4 KialoAgent.response /\
  at_most (counts is_generation) 0 KialoAgent.response /\
  at_most (counts is_retrieval) 1 KialoAgent.response /\
  at_most (counts is_random) 2 KialoAgent.response.
Proof. repeat split; unfold_response; at_most_steps. Qed.

Lemma ContextualKialoAgent_budget :
  at_most (counts any_call) 2 ContextualKialoAgent.response /\
  at_most (counts is_generation) 0 ContextualKialoAgent.response.
Proof. repeat split; unfold_response; at_most_steps. Qed.

Lemma RAGAgent_budget :
  at_most (counts any_call) 3 RAGAgent.response /\
  at_most (counts is_generation) 2 RAGAgent.response /\
  at_most (counts is_retrieval) 1 RAGAgent.response /\
  at_most (counts is_random) 0 RAGAgent.response.
Proof. repeat split; unfold_response; at_most_steps. Qed.

Lemma AwsomAgent_budget :
  at_most (counts any_call) 2 AwsomAgent.response /\
  at_most (counts is_retrieval) 0 AwsomAgent.response /\
  at_most (counts is_random) 0 AwsomAgent.response.
Proof. repeat split; unfold_response; at_most_steps. Qed.

Lemma filter_any_call l : List.filter any_call l = l.
Proof. induction l as [|c l IH]; simpl; [reflexivity|]. by rewrite IH. Qed.

(** X4.  "No LLM is used": in every run, whatever the dialogue, the
    corpus and the draws, [KialoAgent.response] makes no generation call
    and leaves the generation service as it was; it makes at most four
    calls in all, at most one of them a retrieval and at most two of them
    random draws. *)
Theorem KialoAgent_uses_no_LLM (tape : Tape) (h : Heap) :
  let result := run tape KialoAgent.response h in
  let calls := calls_since h result.2 in
  generation_calls calls = [] /\
  llm_calls result.2 = llm_calls h /\
  length calls <= 4 /\
  length (retrieval_calls calls) <= 1 /\
  length (List.filter is_random calls) <= 2.
Proof.
  destruct KialoAgent_budget as (Hall & Hgen & Hret & Hrnd). cbv zeta.
  split; [apply filter_length_0, at_most_calls, Hgen|].
  split; [apply at_most_llm_calls, Hgen|].
  split; [|split].
  - rewrite <- (filter_any_call (calls_since _ _)). apply at_most_calls, Hall.
  - apply at_most_calls, Hret.
  - apply at_most_calls, Hrnd.
Qed.

(** X5.  [ContextualKialoAgent.response] never raises once the agent has
    its corpus: for every dialogue, empty or not, it returns a text, which
    is the apology or one of the retrieved candidates.  It makes at most
    two calls and never a generation call. *)
Theorem ContextualKialoAgent_always_replies (tape : Tape) (h : Heap) (k : Kialo) :
  kialo (self h) = Some k ->
  let query := join " " (last_n 3 (map Turn.content (dialogue h))) in
  let results := closest_claims_impl k query 3 "has_cons" in
  let result := run tape ContextualKialoAgent.response h in
  let calls := calls_since h result.2 in
  (exists reply, result.1 = Returned reply /\
     (reply = "I'm sorry, I couldn't find a relevant response." \/
      reply ∈ results)) /\
  length calls <= 2 /\
  generation_calls calls = [] /\
  llm_calls result.2 = llm_calls h.
Proof.
  intros Hk query results result calls.
  destruct ContextualKialoAgent_budget as (Hall & Hgen).
  split; [|split; [|split]].
  - subst result. destruct (decide (results = [])) as [Hr|Hr].
    + rewrite (Contextual_run_no_results tape h k Hk Hr). eauto.
    + rewrite (Contextual_run_results tape h k Hk Hr).
      destruct (choose_nonempty results (tape (rng_pos h)) Hr) as (reply & Hin & Hch).
      fold query results. rewrite Hch. exists reply. split; [reflexivity|].
      right. eapply list_elem_of_lookup_2, Hin.
  - subst calls. rewrite <- (filter_any_call (calls_since _ _)).
    apply at_most_calls, Hall.
  - apply filter_length_0, at_most_calls, Hgen.
  - apply at_most_llm_calls, Hgen.
Qed.

(** Akiki on the corpus without claims and on the corpus with A, B and
    C. *)
Lemma ContextualKialoAgent_always_replies_witness :
  (exists reply,
     (run sample_tape ContextualKialoAgent.response
        (fresh_heap (akiki corpus_empty) [])).1 = Returned reply) /\
  (exists reply,
     (run sample_tape ContextualKialoAgent.response
        (fresh_heap (akiki corpus_AB) long_dialogue)).1 = Returned reply).
Proof.
  split.
  - destruct (ContextualKialoAgent_always_replies sample_tape
                (fresh_heap (akiki corpus_empty) []) corpus_empty eq_refl)
      as ((reply & Hr & _) & _).
    exists reply. exact Hr.
  - destruct (ContextualKialoAgent_always_replies sample_tape
                (fresh_heap (akiki corpus_AB) long_dialogue) corpus_AB eq_refl)
      as ((reply & Hr & _) & _).
    exists reply. exact Hr.
Defined.

(** X6.  In every run, whatever the client answers, [RAGAgent.response]
    makes at most two generation calls and at most one retrieval, at most
    three calls in all; it never uses the random source, so that the run
    is the same on every tape. *)
Theorem RAGAgent_budget_per_turn (tape tape' : Tape) (h : Heap) :
  let result := run tape RAGAgent.response h in
  let calls := calls_since h result.2 in
  length calls <= 3 /\
  length (generation_calls calls) <= 2 /\
  length (retrieval_calls calls) <= 1 /\
  List.filter is_random calls = [] /\
  run tape' RAGAgent.response h = result.
Proof.
  destruct RAGAgent_budget as (Hall & Hgen & Hret & Hrnd). cbv zeta.
  split; [|split; [|split; [|split]]].
  - rewrite <- (filter_any_call (calls_since _ _)). apply at_most_calls, Hall.
  - apply at_most_calls, Hgen.
  - apply at_most_calls, Hret.
  - apply filter_length_0, at_most_calls, Hrnd.
  - apply at_most_random_tape, Hrnd.
Qed.

(** X7.  In every run, whatever the client answers and whether or not
    the agent has a corpus, [AwsomAgent.response] makes at most two
    calls, none of them a retrieval or a random draw; the run is the same
    on every tape. *)
Theorem AwsomAgent_budget_per_turn (tape tape' : Tape) (h : Heap) :
  let result := run tape AwsomAgent.response h in
  let calls := calls_since h result.2 in
  length calls <= 2 /\
  retrieval_calls calls = [] /\
  List.filter is_random calls = [] /\
  run tape' AwsomAgent.response h = result.
Proof.
  destruct AwsomAgent_budget as (Hall & Hret & Hrnd). cbv zeta.
  split; [|split; [|split]].
  - rewrite <- (filter_any_call (calls_since _ _)). apply at_most_calls, Hall.
  - apply filter_length_0, at_most_calls, Hret.
  - apply filter_length_0, at_most_calls, Hrnd.
  - apply at_most_random_tape, Hrnd.
Qed.

(** X8.  [RAGAgent.response] and [AwsomAgent.response] see the dialogue
    only through the text of its last turn: two dialogues whose last
    turns have the same text (or an empty dialogue and one that ends in an
    empty turn) lead to the same outcome and the same calls, whoever
    spoke last and whatever was said before. *)
Theorem only_last_text_matters (tape : Tape) (h1 h2 : Heap) :
  same_but_dialogue h1 h2 ->
  last_content (dialogue h1) = last_content (dialogue h2) ->
  ((run tape RAGAgent.response h1).1 = (run tape RAGAgent.response h2).1 /\
   calls_since h1 (run tape RAGAgent.response h1).2
   = calls_since h2 (run tape RAGAgent.response h2).2) /\
  ((run tape AwsomAgent.response h1).1 = (run tape AwsomAgent.response h2).1 /\
   calls_since h1 (run tape AwsomAgent.response h1).2
   = calls_since h2 (run tape AwsomAgent.response h2).2).
Proof.
  intros Hsame Hlast. split.
  - unfold RAGAgent.response.
    rewrite !run_mbind. simpl (run tape (call get_dialogue) _). cbv beta iota.
    rewrite !run_mbind, !run_last_turn_content, Hlast.
    match goal with
    | |- (run tape ?p h1).1 = _ /\ _ =>
        assert (Hp : at_most reads_dialogue 0 p)
          by (unfold_response; at_most_steps);
        destruct (at_most_dialogue tape p h1 h2 Hp Hsame) as [Ho Hh]
    end.
    split; [exact Ho|]. eapply same_but_dialogue_calls; eassumption.
  - unfold AwsomAgent.response.
    rewrite !run_mbind. simpl (run tape (call get_dialogue) _). cbv beta iota.
    rewrite !run_mbind, !run_last_turn_content, Hlast.
    match goal with
    | |- (run tape ?p h1).1 = _ /\ _ =>
        assert (Hp : at_most reads_dialogue 0 p)
          by (unfold_response; at_most_steps);
        destruct (at_most_dialogue tape p h1 h2 Hp Hsame) as [Ho Hh]
    end.
    split; [exact Ho|]. eapply same_but_dialogue_calls; eassumption.
Qed.

(** The empty dialogue and a dialogue that ends in an empty turn. *)
Lemma only_last_text_matters_witness :
  (run sample_tape RAGAgent.response (heap_aragorn client_ok [])).1
  = (run sample_tape RAGAgent.response
       (heap_aragorn client_ok [Turn.mk "user" "A is true"; Turn.mk "bot" ""])).1.
Proof.
  apply (only_last_text_matters sample_tape (heap_aragorn client_ok [])
           (heap_aragorn client_ok [Turn.mk "user" "A is true"; Turn.mk "bot" ""])).
  - repeat split.
  - reflexivity.
Defined.

(** X9.  On non-empty dialogues [KialoAgent.response] sees the dialogue
    only through the text of its last turn: earlier turns and the speaker
    of the last turn change neither the outcome nor the calls. *)
Theorem KialoAgent_only_last_text_matters
    (tape : Tape) (h1 h2 : Heap) (turn1 turn2 : Turn.t) :
  same_but_dialogue h1 h2 ->
  last (dialogue h1) = Some turn1 ->
  last (dialogue h2) = Some turn2 ->
  Turn.content turn1 = Turn.content turn2 ->
  (run tape KialoAgent.response h1).1 = (run tape KialoAgent.response h2).1 /\
  calls_since h1 (run tape KialoAgent.response h1).2
  = calls_since h2 (run tape KialoAgent.response h2).2.
Proof.
  intros Hsame Hl1 Hl2 Hc. unfold KialoAgent.response.
  rewrite !run_mbind. simpl (run tape (call get_dialogue) _). cbv beta iota.
  rewrite (dialogue_not_empty h1 turn1 Hl1), (dialogue_not_empty h2 turn2 Hl2).
  unfold item_last. rewrite Hl1, Hl2. simpl mbind. cbv zeta. rewrite Hc.
  match goal with
  | |- (run tape ?p h1).1 = _ /\ _ =>
      assert (Hp : at_most reads_dialogue 0 p)
        by (unfold_response; at_most_steps);
      destruct (at_most_dialogue tape p h1 h2 Hp Hsame) as [Ho Hh]
  end.
  split; [exact Ho|]. eapply same_but_dialogue_calls; eassumption.
Qed.

(** A one-turn dialogue and a longer one that ends with the same text,
    said by the other speaker. *)
Lemma KialoAgent_only_last_text_matters_witness :
  (run sample_tape KialoAgent.response
     (fresh_heap (akiko corpus_AB) [Turn.mk "user" "four"])).1
  = (run sample_tape KialoAgent.response
       (fresh_heap (akiko corpus_AB) long_dialogue)).1.
Proof.
  apply (KialoAgent_only_last_text_matters sample_tape
           (fresh_heap (akiko corpus_AB) [Turn.mk "user" "four"])
           (fresh_heap (akiko corpus_AB) long_dialogue)
           (Turn.mk "user" "four") (Turn.mk "bot" "four")).
  - repeat split.
  - reflexivity.
  - reflexivity.
  - reflexivity.
Defined.

(** X10.  [ContextualKialoAgent.response] sees the dialogue only through
    its last three turns: two dialogues that agree on them lead to the
    same outcome and the same calls, however long they are. *)
Theorem ContextualKialoAgent_window (tape : Tape) (h1 h2 : Heap) :
  same_but_dialogue h1 h2 ->
  last_n 3 (dialogue h1) = last_n 3 (dialogue h2) ->
  (run tape ContextualKialoAgent.response h1).1
  = (run tape ContextualKialoAgent.response h2).1 /\
  calls_since h1 (run tape ContextualKialoAgent.response h1).2
  = calls_since h2 (run tape ContextualKialoAgent.response h2).2.
Proof.
  intros Hsame Hw. unfold ContextualKialoAgent.response.
  rewrite !run_mbind. simpl (run tape (call get_dialogue) _). cbv beta iota zeta.
  rewrite !last_n_map, Hw.
  match goal with
  | |- (run tape ?p h1).1 = _ /\ _ =>
      assert (Hp : at_most reads_dialogue 0 p)
        by (unfold_response; at_most_steps);
      destruct (at_most_dialogue tape p h1 h2 Hp Hsame) as [Ho Hh]
  end.
  split; [exact Ho|]. eapply same_but_dialogue_calls; eassumption.
Qed.

(** A dialogue of five turns and its last three turns. *)
Lemma ContextualKialoAgent_window_witness :
  calls_since (fresh_heap (akiki corpus_AB) long_dialogue)
    (run sample_tape ContextualKialoAgent.response
       (fresh_heap (akiki corpus_AB) long_dialogue)).2
  = calls_since (fresh_heap (akiki corpus_AB) short_dialogue)
      (run sample_tape ContextualKialoAgent.response
         (fresh_heap (akiki corpus_AB) short_dialogue)).2.
Proof.
  apply (ContextualKialoAgent_window sample_tape
           (fresh_heap (akiki corpus_AB) long_dialogue)
           (fresh_heap (akiki corpus_AB) short_dialogue)).
  - repeat split.
  - reflexivity.
Defined.

(** X11.  On a dialogue of a single turn the two lookup agents put the
    same question to the corpus: the turn's text, for 3 candidates with
    con-arguments. *)
Theorem lookup_agents_agree_on_one_turn (tape : Tape) (h : Heap) (k : Kialo) (turn : Turn.t) :
  dialogue h = [turn] ->
  kialo (self h) = Some k ->
  let retrieval := Call_closest_claims (Turn.content turn) 3 "has_cons" in
  head (calls_since h (run tape KialoAgent.response h).2) = Some retrieval /\
  head (calls_since h (run tape ContextualKialoAgent.response h).2) = Some retrieval.
Proof.
  intros Hd Hk retrieval. split.
  - unfold KialoAgent.response. simpl. rewrite Hd. simpl. rewrite Hk. simpl.
    match goal with
    | |- context [run tape ?p ?h1] => destruct (run_trace tape p h1) as [l Hl]
    end.
    erewrite calls_since_app
      by (rewrite Hl; simpl; rewrite <- ?app_assoc; reflexivity).
    reflexivity.
  - unfold ContextualKialoAgent.response. simpl. rewrite Hd, Hk. simpl.
    match goal with
    | |- context [run tape ?p ?h1] => destruct (run_trace tape p h1) as [l Hl]
    end.
    erewrite calls_since_app
      by (rewrite Hl; simpl; rewrite <- ?app_assoc; reflexivity).
    reflexivity.
Qed.

Lemma lookup_agents_agree_on_one_turn_witness :
  let h := fresh_heap (akiko corpus_AB) (user_says "A is true") in
  head (calls_since h (run sample_tape ContextualKialoAgent.response h).2)
  = Some (Call_closest_claims "A is true" 3 "has_cons").
Proof.
  intros h.
  apply (lookup_agents_agree_on_one_turn sample_tape h corpus_AB
           (Turn.mk "user" "A is true") eq_refl eq_refl).
Defined.

Lemma run_content_strip_malformed tape completion h :
  first_content completion = None ->
  run tape (content_strip completion) h = (Raised (malformed completion), h).
Proof.
  unfold first_content, content_strip, item, malformed. intros H.
  destruct (ChatCompletion.choices completion) as [|choice l]; [reflexivity|].
  simpl in *. rewrite H. reflexivity.
Qed.

(** X12.  A completion without choices, or whose first choice has no
    text, ends [RAGAgent.response] with [IndexError], respectively
    [AttributeError].  After such a first completion nothing more is
    called: no retrieval, no second generation call.  After such a second
    completion no text is returned. *)
Theorem RAGAgent_malformed_completion
    (tape : Tape) (h : Heap) (c : Client) (m : string) (completion1 : ChatCompletion.t) :
  client (self h) = Some c ->
  model (self h) = Some m ->
  let last_turn := last_content (dialogue h) in
  create_impl c (llm_calls h) (RAGAgent.paraphrase_prompt last_turn) m
    = inr completion1 ->
  let result := run tape RAGAgent.response h in
  (first_content completion1 = None ->
   result.1 = Raised (malformed completion1) /\
   calls_since h result.2 = [Call_create (RAGAgent.paraphrase_prompt last_turn) m]) /\
  (forall k s1 completion2,
     kialo (self h) = Some k ->
     first_content completion1 = Some s1 ->
     let grounded :=
       RAGAgent.final_prompt
         (join nl (closest_claims_impl k (strip s1) 3 "has_cons")) last_turn in
     create_impl c (S (llm_calls h)) grounded m = inr completion2 ->
     first_content completion2 = None ->
     result.1 = Raised (malformed completion2) /\
     length (calls_since h result.2) = 3).
Proof.
  intros Hc Hm last_turn H1 result. subst result. split.
  - intros Hbad. unfold RAGAgent.response.
    rewrite run_mbind. simpl (run tape (call get_dialogue) h). cbv beta iota.
    rewrite run_mbind, run_last_turn_content.
    simpl. rewrite Hc, Hm. fold last_turn. rewrite H1.
    rewrite run_mbind, run_content_strip_malformed by exact Hbad.
    split; [reflexivity|]. apply calls_since_app. reflexivity.
  - intros k s1 completion2 Hk Hs1 grounded H2 Hbad.
    rewrite (RAG_run_prefix tape h c m k Hc Hm Hk completion1 s1 H1 Hs1).
    fold last_turn grounded. rewrite H2.
    rewrite run_content_strip_malformed by exact Hbad.
    split; [reflexivity|].
    erewrite calls_since_app by (simpl; rewrite <- ?app_assoc; reflexivity).
    reflexivity.
Qed.

(** A client that answers without choices, and one whose second answer
    has no text. *)
Lemma RAGAgent_malformed_completion_witness :
  (run sample_tape RAGAgent.response
     (heap_aragorn client_no_choices (user_says "A is true"))).1
  = Raised IndexError /\
  (run sample_tape RAGAgent.response
     (heap_aragorn client_no_text_second (user_says "A is true"))).1
  = Raised (AttributeError "strip").
Proof.
  split.
  - apply (RAGAgent_malformed_completion sample_tape
             (heap_aragorn client_no_choices (user_says "A is true"))
             client_no_choices "gpt" completion_without_choices
             eq_refl eq_refl eq_refl).
    reflexivity.
  - destruct (RAGAgent_malformed_completion sample_tape
                (heap_aragorn client_no_text_second (user_says "A is true"))
                client_no_text_second "gpt" (completion_of " first answer ")
                eq_refl eq_refl eq_refl) as [_ H].
    apply (H corpus_AB " first answer " completion_without_text); reflexivity.
Defined.

(** X13.  A completion without choices, or whose first choice has no
    text, ends [AwsomAgent.response] with [IndexError], respectively
    [AttributeError].  After such a first completion the second
    generation call is not made; after such a second completion no text
    is returned. *)
Theorem AwsomAgent_malformed_completion
    (tape : Tape) (h : Heap) (c : Client) (m : string) (completion1 : ChatCompletion.t) :
  client (self h) = Some c ->
  model (self h) = Some m ->
  let last_turn := last_content (dialogue h) in
  create_impl c (llm_calls h) (AwsomAgent.thought_prompt last_turn) m
    = inr completion1 ->
  let result := run tape AwsomAgent.response h in
  (first_content completion1 = None ->
   result.1 = Raised (malformed completion1) /\
   calls_since h result.2 = [Call_create (AwsomAgent.thought_prompt last_turn) m]) /\
  (forall s1 completion2,
     first_content completion1 = Some s1 ->
     create_impl c (S (llm_calls h))
       (AwsomAgent.response_prompt (strip s1) last_turn) m = inr completion2 ->
     first_content completion2 = None ->
     result.1 = Raised (malformed completion2) /\
     length (calls_since h result.2) = 2).
Proof.
  intros Hc Hm last_turn H1 result. subst result. split.
  - intros Hbad. unfold AwsomAgent.response.
    rewrite run_mbind. simpl (run tape (call get_dialogue) h). cbv beta iota.
    rewrite run_mbind, run_last_turn_content.
    simpl. rewrite Hc, Hm. fold last_turn. rewrite H1.
    rewrite run_mbind, run_content_strip_malformed by exact Hbad.
    split; [reflexivity|]. apply calls_since_app. reflexivity.
  - intros s1 completion2 Hs1 H2 Hbad.
    rewrite (Awsom_run_prefix tape h c m Hc Hm completion1 s1 H1 Hs1).
    fold last_turn. rewrite H2.
    rewrite run_mbind, run_content_strip_malformed by exact Hbad.
    split; [reflexivity|].
    erewrite calls_since_app by (simpl; rewrite <- ?app_assoc; reflexivity).
    reflexivity.
Qed.

Lemma AwsomAgent_malformed_completion_witness :
  (run sample_tape AwsomAgent.response
     (heap_awsom client_no_choices (user_says "A is true"))).1
  = Raised IndexError /\
  (run sample_tape AwsomAgent.response
     (heap_awsom client_no_text_second (user_says "A is true"))).1
  = Raised (AttributeError "strip").
Proof.
  split.
  - apply (AwsomAgent_malformed_completion sample_tape
             (heap_awsom client_no_choices (user_says "A is true"))
             client_no_choices "gpt" completion_without_choices
             eq_refl eq_refl eq_refl).
    reflexivity.
  - destruct (AwsomAgent_malformed_completion sample_tape
                (heap_awsom client_no_text_second (user_says "A is true"))
                client_no_text_second "gpt" (completion_of " first answer ")
                eq_refl eq_refl eq_refl) as [_ H].
    apply (H " first answer " completion_without_text); reflexivity.
Defined.

(** X14.  The lookup agents need their constructor.  On an object whose
    [kialo] was never assigned both [response] methods raise
    [AttributeError] before any call is made.  After
    [KialoAgent.__init__], whatever the object held before, neither method
    can end in an [AttributeError], on any dialogue. *)
Theorem lookup_agents_need_constructor
    (tape : Tape) (h : Heap) (name : string) (k : Kialo) (attr : string) :
  (kialo (self h) = None ->
   run tape KialoAgent.response h = (Raised (AttributeError "kialo"), h) /\
   run tape ContextualKialoAgent.response h = (Raised (AttributeError "kialo"), h)) /\
  (run tape (KialoAgent.__init__ name k ≫= λ _, KialoAgent.response) h).1
    ≠ Raised (AttributeError attr) /\
  (run tape (ContextualKialoAgent.__init__ name k
             ≫= λ _, ContextualKialoAgent.response) h).1
    ≠ Raised (AttributeError attr).
Proof.
  split; [|split].
  - intros Hk. split.
    + unfold KialoAgent.response. simpl. case_bool_decide; simpl.
      * by rewrite Hk.
      * unfold item_last. destruct (last (dialogue h)) as [turn|] eqn:Hl.
        -- simpl. by rewrite Hk.
        -- apply last_None in Hl. by rewrite Hl in *.
    + unfold ContextualKialoAgent.response. simpl. by rewrite Hk.
  - rewrite run_mbind. simpl (run tape (KialoAgent.__init__ name k) h).
    cbv beta iota.
    set (h' := with_self _ _).
    assert (Hk : kialo (self h') = Some k) by reflexivity.
    destruct (last (dialogue h')) as [turn|] eqn:Hl.
    + destruct (decide (closest_claims_impl k (Turn.content turn) 3 "has_cons" = []))
        as [Hn|Hn].
      * rewrite (KialoAgent_run_no_neighbors tape h' k turn Hl Hk Hn). discriminate.
      * destruct (choose_nonempty _ (tape (rng_pos h')) Hn) as (nb & _ & Hch).
        rewrite (KialoAgent_run_neighbor tape h' k turn Hl Hk nb Hch). cbv zeta.
        destruct (cons k !! nb) as [opposing|]; [|discriminate].
        destruct (choose opposing _) as [e|claim] eqn:Hch2; [|discriminate].
        apply choose_raises in Hch2. subst e. discriminate.
    + apply last_None in Hl.
      rewrite (KialoAgent_run_opening tape h' k Hl Hk).
      simpl. destruct (random_chain_impl k _); discriminate.
  - rewrite run_mbind.
    simpl (run tape (ContextualKialoAgent.__init__ name k) h). cbv beta iota.
    set (h' := with_self _ _).
    assert (Hk : kialo (self h') = Some k) by reflexivity.
    destruct (decide (closest_claims_impl k
                 (join " " (last_n 3 (map Turn.content (dialogue h')))) 3
                 "has_cons" = [])) as [Hr|Hr].
    + rewrite (Contextual_run_no_results tape h' k Hk Hr). discriminate.
    + rewrite (Contextual_run_results tape h' k Hk Hr).
      destruct (choose_nonempty _ (tape (rng_pos h')) Hr) as (reply & _ & Hch).
      rewrite Hch. discriminate.
Qed.

(** An object that was never constructed. *)
Lemma lookup_agents_need_constructor_witness :
  run sample_tape KialoAgent.response (fresh_heap new_object (user_says "A is true"))
  = (Raised (AttributeError "kialo"),
     fresh_heap new_object (user_says "A is true")).
Proof.
  apply (lookup_agents_need_constructor sample_tape
           (fresh_heap new_object (user_says "A is true")) "Akiko" corpus_AB "kialo").
  reflexivity.
Defined.

(** X15.  The query of [ContextualKialoAgent.response]: for a dialogue
    of three or more turns, the texts of the last three turns, oldest
    first, separated by single spaces; for the empty dialogue, the empty
    string.  Either way the retrieval asks for 3 candidates with
    con-arguments and is the first call. *)
Theorem ContextualKialoAgent_query
    (tape : Tape) (h : Heap) (k : Kialo) (earlier : Dialogue) (a b c : Turn.t) :
  kialo (self h) = Some k ->
  let result := run tape ContextualKialoAgent.response h in
  (dialogue h = earlier ++ [a; b; c] ->
   head (calls_since h result.2) =
   Some (Call_closest_claims
           (Turn.content a +:+ " " +:+ Turn.content b +:+ " " +:+ Turn.content c)
           3 "has_cons")) /\
  (dialogue h = [] ->
   head (calls_since h result.2) = Some (Call_closest_claims "" 3 "has_cons")).
Proof.
  intros Hk result.
  assert (Hhead : head (calls_since h result.2) =
                  Some (Call_closest_claims
                          (join " " (last_n 3 (map Turn.content (dialogue h))))
                          3 "has_cons")).
  { subst result.
    destruct (decide (closest_claims_impl k
                (join " " (last_n 3 (map Turn.content (dialogue h)))) 3
                "has_cons" = [])) as [Hr|Hr].
    - rewrite (Contextual_run_no_results tape h k Hk Hr).
      erewrite calls_since_app by reflexivity. reflexivity.
    - rewrite (Contextual_run_results tape h k Hk Hr).
      erewrite calls_since_app by (simpl; rewrite <- ?app_assoc; reflexivity).
      reflexivity. }
  split; intros Hd; rewrite Hhead, Hd; [|reflexivity].
  rewrite last_n_map. unfold last_n.
  rewrite drop_app_length' by (rewrite length_app; simpl; lia).
  reflexivity.
Qed.

Lemma ContextualKialoAgent_query_witness :
  let h := fresh_heap (akiki corpus_AB) long_dialogue in
  head (calls_since h (run sample_tape ContextualKialoAgent.response h).2)
  = Some (Call_closest_claims "two three four" 3 "has_cons").
Proof.
  intros h.
  apply (ContextualKialoAgent_query sample_tape h corpus_AB
           [Turn.mk "bot" "zero"; Turn.mk "user" "one"]
           (Turn.mk "bot" "two") (Turn.mk "user" "three") (Turn.mk "bot" "four")
           eq_refl).
  reflexivity.
Defined.
